(** * dedebugger: a ptrace line debugger for Go binaries

    Shallow embedding of package [debugger] (def.go and the two
    implementation files): the [Debugger] struct, [InputOrContinue],
    [SetBreak], [ReplaceCode], [OutputStack] and the wait loop of
    [RunTarget], followed by the properties of the engine.

    Conventions.
    - [uint64] values are [Z] in [0, 2^64); every Go operation that may
      leave the range is followed by [u64].
    - The tracee's address space is a partial map from addresses to
      bytes; an address outside its domain makes a peek or a poke fail.
      All tracees of one session are threads of one process and share it.
    - A method on [*Debugger] is a computation in the monad [M]: it
      threads the struct, the tracee's memory and the log of effects
      (prints and ptrace requests), and it may end in a panic, in
      [os.Exit], or never.                                               *)

From Stdlib Require Import ZArith List String Ascii Bool Lia.
From Stdlib Require Import Strings.Byte.
Import ListNotations.
Open Scope string_scope.
Open Scope Z_scope.

(* ================================================================== *)
(** ** Machine integers and bytes *)

Definition two64 : Z := 2 ^ 64.

Definition u64 (z : Z) : Z := z mod two64.

Definition byte_val (b : byte) : Z := Z.of_N (Byte.to_N b).

(** [binary.LittleEndian.Uint64] on a slice of (at least) eight bytes. *)
Fixpoint le_decode (bs : list byte) : Z :=
  match bs with
  | [] => 0
  | b :: bs' => byte_val b + 256 * le_decode bs'
  end.

Definition Uint64 (bs : list byte) : Z := le_decode (firstn 8 bs).

(** [b[i : i+8]]: a run-time panic when [i+8] exceeds the capacity. *)
Definition slice8 (b : list byte) (i : Z) : option (list byte) :=
  if (0 <=? i) && (i + 8 <=? Z.of_nat (List.length b))
  then Some (firstn 8 (skipn (Z.to_nat i) b))
  else None.

(* ================================================================== *)
(** ** The Go library functions the package calls *)

Module GoLib.

(** [strings.ToUpper].  ASCII letters are shifted; of the other runes
    only U+017F (long s, bytes C5 BF) and U+0131 (dotless i, bytes
    C4 B1) have an ASCII upper case, so only those two are rewritten:
    no other rune can turn an input into one of the menu letters. *)
Definition upper_ascii (c : ascii) : ascii :=
  let n := nat_of_ascii c in
  if ((97 <=? n) && (n <=? 122))%nat then ascii_of_nat (n - 32) else c.

Fixpoint ToUpper (s : string) : string :=
  match s with
  | EmptyString => EmptyString
  | String c EmptyString => String (upper_ascii c) EmptyString
  | String c1 (String c2 rest as tl) =>
      if ((nat_of_ascii c1 =? 197) && (nat_of_ascii c2 =? 191))%nat
      then String "S" (ToUpper rest)
      else if ((nat_of_ascii c1 =? 196) && (nat_of_ascii c2 =? 177))%nat
      then String "I" (ToUpper rest)
      else String (upper_ascii c1) (ToUpper tl)
  end.

(** [strconv.Atoi] on a 64-bit platform: the value and the kind of
    error ([nil] is [None]).  The fast path for short strings computes
    what [ParseInt(s, 10, 0)] computes, so only the latter is spelled
    out. *)
Inductive NumError := ErrSyntax | ErrRange.

Definition maxUint64 : Z := two64 - 1.
Definition cutoff : Z := maxUint64 / 10 + 1.

Definition digit_of (c : ascii) : option Z :=
  let n := Z.of_nat (nat_of_ascii c) in
  if (48 <=? n) && (n <=? 57) then Some (n - 48) else None.

Fixpoint ParseUint_loop (s : string) (n : Z) : Z * option NumError :=
  match s with
  | EmptyString => (n, None)
  | String c s' =>
      match digit_of c with
      | None => (0, Some ErrSyntax)
      | Some d =>
          if n >=? cutoff then (maxUint64, Some ErrRange)
          else
            let n1 := n * 10 + d in
            if n1 >? maxUint64 then (maxUint64, Some ErrRange)
            else ParseUint_loop s' n1
      end
  end.

Definition ParseUint (s : string) : Z * option NumError :=
  match s with
  | EmptyString => (0, Some ErrSyntax)
  | _ => ParseUint_loop s 0
  end.

Definition ParseInt (s : string) : Z * option NumError :=
  match s with
  | EmptyString => (0, Some ErrSyntax)
  | String c s' =>
      let neg := Ascii.eqb c "-" in
      let body := if Ascii.eqb c "+" || Ascii.eqb c "-" then s' else s in
      let '(un, err) := ParseUint body in
      match err with
      | Some ErrSyntax => (0, err)
      | _ =>
          if negb neg && (un >=? 2 ^ 63) then (2 ^ 63 - 1, Some ErrRange)
          else if neg && (un >? 2 ^ 63) then (- 2 ^ 63, Some ErrRange)
          else (if neg then - un else un, None)
      end
  end.

Definition Atoi (s : string) : Z * option NumError := ParseInt s.

(** [syscall.WaitStatus] (a [uint32]) and its methods on Linux. *)
Definition SIGTRAP : Z := 5.
Definition PTRACE_EVENT_CLONE : Z := 3.

Definition Exited (w : Z) : bool := Z.land w 127 =? 0.
Definition Stopped (w : Z) : bool := Z.land w 255 =? 127.
Definition StopSignal (w : Z) : Z :=
  if Stopped w then Z.land (Z.shiftr w 8) 255 else -1.
Definition TrapCause (w : Z) : Z :=
  if StopSignal w =? SIGTRAP then Z.shiftr (Z.shiftr w 8) 8 else -1.

End GoLib.
Import GoLib.

(* ================================================================== *)
(** ** Data model (def.go) *)

(** [gosym.Func], of which the engine reads the name and the entry. *)
Record Func := mkFunc { Name : string; Entry : Z }.

(** [gosym.Table], the resolver.  [PCToLine] answers [None] for the
    triple ("", 0, nil); [LineToPC] answers [None] for (0, nil, err). *)
Record Table := mkTable {
  LineToPC : string -> Z -> option Z;
  PCToLine : Z -> option (string * Z * Func);
  LookupFunc : string -> option Func
}.

(** The registers of [syscall.PtraceRegs] that the engine reads. *)
Record PtraceRegs := mkRegs { Rip : Z; Rsp : Z; Rbp : Z }.

Record Debugger := mkDebugger {
  TargetFile : string;
  Line : Z;
  PC : Z;
  Fn : option Func;
  SymTable : Table;
  Regs : PtraceRegs;
  Ws : Z;
  OriginalCode : list byte;
  BreakpointSet : bool;
  InterruptCode : list byte
}.

Definition set_Line (d : Debugger) (v : Z) : Debugger :=
  mkDebugger (TargetFile d) v (PC d) (Fn d) (SymTable d) (Regs d) (Ws d)
             (OriginalCode d) (BreakpointSet d) (InterruptCode d).

Definition set_PC (d : Debugger) (v : Z) : Debugger :=
  mkDebugger (TargetFile d) (Line d) v (Fn d) (SymTable d) (Regs d) (Ws d)
             (OriginalCode d) (BreakpointSet d) (InterruptCode d).

Definition set_Fn (d : Debugger) (v : option Func) : Debugger :=
  mkDebugger (TargetFile d) (Line d) (PC d) v (SymTable d) (Regs d) (Ws d)
             (OriginalCode d) (BreakpointSet d) (InterruptCode d).

Definition set_Regs (d : Debugger) (v : PtraceRegs) : Debugger :=
  mkDebugger (TargetFile d) (Line d) (PC d) (Fn d) (SymTable d) v (Ws d)
             (OriginalCode d) (BreakpointSet d) (InterruptCode d).

Definition set_Ws (d : Debugger) (v : Z) : Debugger :=
  mkDebugger (TargetFile d) (Line d) (PC d) (Fn d) (SymTable d) (Regs d) v
             (OriginalCode d) (BreakpointSet d) (InterruptCode d).

Definition set_OriginalCode (d : Debugger) (v : list byte) : Debugger :=
  mkDebugger (TargetFile d) (Line d) (PC d) (Fn d) (SymTable d) (Regs d)
             (Ws d) v (BreakpointSet d) (InterruptCode d).

Definition set_BreakpointSet (d : Debugger) (v : bool) : Debugger :=
  mkDebugger (TargetFile d) (Line d) (PC d) (Fn d) (SymTable d) (Regs d)
             (Ws d) (OriginalCode d) v (InterruptCode d).

(** [NewDebugger], once [Run] has stored the symbol table: the other
    fields hold Go's zero values. *)
Definition NewDebugger (tbl : Table) : Debugger :=
  mkDebugger "" 0 0 None tbl (mkRegs 0 0 0) 0 [] false [xcc].

(* ================================================================== *)
(** ** The tracee's memory and the ptrace data requests *)

Definition Mem := Z -> option byte.

Definition upd (m : Mem) (a : Z) (b : byte) : Mem :=
  fun a' => if a' =? a then Some b else m a'.

Inductive Errno := EIO | ESRCH.

(** [syscall.PtracePeekData(pid, addr, out)]: fills [out] from the
    tracee; stops at the first address that cannot be read, leaving the
    rest of [out] as it was, and reports the error. *)
Fixpoint peek_bytes (m : Mem) (addr : Z) (out : list byte)
  : list byte * option Errno :=
  match out with
  | [] => ([], None)
  | o :: out' =>
      match m (u64 addr) with
      | Some b => let '(r, e) := peek_bytes m (addr + 1) out' in (b :: r, e)
      | None => (out, Some EIO)
      end
  end.

(** [syscall.PtracePokeData(pid, addr, data)]: writes [data], stopping
    at the first address that cannot be written. *)
Fixpoint poke_bytes (m : Mem) (addr : Z) (data : list byte)
  : Mem * option Errno :=
  match data with
  | [] => (m, None)
  | b :: data' =>
      match m (u64 addr) with
      | Some _ => poke_bytes (upd m (u64 addr) b) (addr + 1) data'
      | None => (m, Some EIO)
      end
  end.

(* ================================================================== *)
(** ** Effects, worlds and the session monad *)

(** What the engine prints, one constructor per format string. *)
Inductive Msg :=
| MPrompt                                   (* the (C)/(S)/(B)/(Q) menu    *)
| MEnterLine (file : string)                (* "Enter line number in ..."  *)
| MUnexpected (input : string)              (* "Unexpected input ..."      *)
| MCantFind (file : string) (line : Z)      (* "Can't find breakpoint ..." *)
| MStrange (sp bp : Z)                      (* "Strange frame size: ..."   *)
| MCalledBy (fn : string) (line : Z)        (* "  called by ... line ..."  *)
| MNewline                                  (* fmt.Println()               *)
| MStopped (fn : string) (line : Z) (file : string)
| MWaitReturned.

Inductive Effect :=
| EPrint (m : Msg)
| EPeek (pid addr : Z) (len : nat)
| EPoke (pid addr : Z) (data : list byte)
| EGetRegs (pid : Z)
| ESetOptions (pid : Z)
| ECont (pid : Z)
| ESingleStep (pid : Z).

Record World := mkWorld {
  dbg : Debugger;
  mem : Mem;
  trace : list Effect
}.

Inductive Res (A : Type) : Type :=
| Ok (a : A) (w : World)      (* returns [a] *)
| Panic (w : World)           (* run-time panic: the program aborts *)
| Exit (w : World)            (* os.Exit(0) *)
| Spin (w : World)            (* loops for ever from [w] on *)
| OutOfFuel.                  (* the model's budget of iterations ran out *)

Arguments Ok {A} a w.
Arguments Panic {A} w.
Arguments Exit {A} w.
Arguments Spin {A} w.
Arguments OutOfFuel {A}.

Definition M (A : Type) : Type := World -> Res A.

Definition ret {A} (a : A) : M A := fun w => Ok a w.

Definition bind {A B} (m : M A) (f : A -> M B) : M B :=
  fun w =>
    match m w with
    | Ok a w' => f a w'
    | Panic w' => Panic w'
    | Exit w' => Exit w'
    | Spin w' => Spin w'
    | OutOfFuel => OutOfFuel
    end.

Declare Scope session_scope.
Delimit Scope session_scope with session.
Notation "x <- c ;; k" := (bind c (fun x => k))
  (at level 61, c at next level, right associativity) : session_scope.
Notation "c ;;; k" := (bind c (fun _ => k))
  (at level 61, right associativity) : session_scope.
Open Scope session_scope.

Definition get : M Debugger := fun w => Ok (dbg w) w.

Definition put (d : Debugger) : M unit :=
  fun w => Ok tt (mkWorld d (mem w) (trace w)).

Definition emit (e : Effect) : M unit :=
  fun w => Ok tt (mkWorld (dbg w) (mem w) (trace w ++ [e])).

Definition print (m : Msg) : M unit := emit (EPrint m).

Definition panic {A} : M A := fun w => Panic w.

Definition os_Exit {A} : M A := fun w => Exit w.

Definition forever {A} : M A := fun w => Spin w.

Definition out_of_fuel {A} : M A := fun _ => OutOfFuel.

(** [must(err)]. *)
Definition must (err : option Errno) : M unit :=
  match err with
  | Some _ => panic
  | None => ret tt
  end.

Definition PtracePeekData (pid addr : Z) (out : list byte)
  : M (list byte * option Errno) :=
  fun w =>
    Ok (peek_bytes (mem w) addr out)
       (mkWorld (dbg w) (mem w) (trace w ++ [EPeek pid addr (List.length out)])).

Definition PtracePokeData (pid addr : Z) (data : list byte)
  : M (option Errno) :=
  fun w =>
    let '(m', e) := poke_bytes (mem w) addr data in
    Ok e (mkWorld (dbg w) m' (trace w ++ [EPoke pid addr data])).

(* ================================================================== *)
(** ** The breakpoint manager *)

(** [ReplaceCode]: both results of both ptrace calls are dropped. *)
Definition ReplaceCode (pid address : Z) (code : list byte) : M (list byte) :=
  let original := repeat x00 (List.length code) in
  r <- PtracePeekData pid address original ;;
  let original := fst r in
  PtracePokeData pid address code ;;;
  ret original.

(** [SetBreak]: [d.PC] receives the resolver's pc even when it fails. *)
Definition SetBreak (pid : Z) : M (bool * list byte) :=
  d <- get ;;
  match LineToPC (SymTable d) (TargetFile d) (Line d) with
  | None =>
      put (set_PC d 0) ;;;
      print (MCantFind (TargetFile d) (Line d)) ;;;
      ret (false, [])
  | Some pc =>
      put (set_PC d pc) ;;;
      orig <- ReplaceCode pid pc (InterruptCode d) ;;
      ret (true, orig)
  end.

(* ================================================================== *)
(** ** The operator's menu *)

(** The [default] arm once "B" has been seen: the entry is converted,
    the conversion error dropped, and the breakpoint requested. *)
Definition request_break (pid : Z) (input : string) : M bool :=
  d <- get ;;
  put (set_Line d (fst (Atoi input))) ;;;
  r <- SetBreak pid ;;
  d <- get ;;
  put (set_OriginalCode (set_BreakpointSet d (fst r)) (snd r)) ;;;
  ret true.

(** The [for] loop of [InputOrContinue] over the lines the scanner will
    deliver.  At end of input [scanner.Text()] is the empty string, for
    ever.  The result is the verdict ([true]: continue, [false]: step)
    and the lines left unread. *)
Fixpoint InputOrContinue_loop (pid : Z) (sub : bool) (lines : list string)
  : M (bool * list string) :=
  match lines with
  | [] =>
      if sub then b <- request_break pid "" ;; ret (b, [])
      else forever
  | input :: rest =>
      let cmd := ToUpper input in
      if String.eqb cmd "C" then ret (true, rest)
      else if String.eqb cmd "S" then ret (false, rest)
      else if String.eqb cmd "B" then
        d <- get ;;
        print (MEnterLine (TargetFile d)) ;;;
        InputOrContinue_loop pid true rest
      else if String.eqb cmd "Q" then os_Exit
      else if sub then b <- request_break pid input ;; ret (b, rest)
      else
        print (MUnexpected input) ;;;
        print MPrompt ;;;
        InputOrContinue_loop pid sub rest
  end.

Definition InputOrContinue (pid : Z) (lines : list string)
  : M (bool * list string) :=
  print MPrompt ;;;
  InputOrContinue_loop pid false lines.

(* ================================================================== *)
(** ** The stack unwinder *)

(** Lines 98-106 of [OutputStack]: the size of the frame between [sp]
    and [bp], and the fallback when it looks wrong.  The result is the
    size of the buffer to read and the frame pointer to scan up to. *)
Definition frame_adjust (sp bp : Z) : M (Z * Z) :=
  let frameSize := u64 (bp - sp + 8) in
  if (frameSize >? 1000) || (bp =? 0) then
    print (MStrange sp bp) ;;;
    let frameSize := 32 in
    ret (frameSize, u64 (sp + frameSize - 8))
  else ret (frameSize, bp).

(** The inner loop [for i = 8; sp+i <= bp; i += 8]: the last word read
    at [sp+i == bp] is the caller's frame pointer.  [fuel] counts the
    iterations that are still allowed; [scan_frame_bounds] shows that the
    length of [b] is always enough. *)
Fixpoint scan_frame (fuel : nat) (b : list byte) (sp bp i nextbp : Z)
  : M (Z * Z) :=
  if u64 (sp + i) <=? bp then
    match slice8 b i with
    | None => panic
    | Some s =>
        let content := Uint64 s in
        let nextbp := if u64 (sp + i) =? bp then content else nextbp in
        match fuel with
        | O => out_of_fuel
        | S fuel' => scan_frame fuel' b sp bp (i + 8) nextbp
        end
    end
  else ret (i, nextbp).

(** How one pass through the outer [for] ends: at the [break], or with
    the stack pointer and the [nextbp] of the next pass. *)
Inductive Step :=
| Break
| Next (sp nextbp : Z).

(** Lines 108-136: the frame is read, its return address resolved, the
    caller's frame pointer looked for, and the sentinel tested. *)
Definition read_frame (pid sp frameSize bp nextbp : Z) : M Step :=
  let b := repeat x00 (Z.to_nat frameSize) in
  r <- PtracePeekData pid sp b ;;
  match snd r with
  | Some _ => panic
  | None =>
      let b := fst r in
      match slice8 b 0 with
      | None => panic
      | Some s =>
          let content := Uint64 s in
          d <- get ;;
          match PCToLine (SymTable d) content with
          | Some (_, lineno, nextfn) =>
              put (set_Fn d (Some nextfn)) ;;;
              print (MCalledBy (Name nextfn) lineno)
          | None => ret tt
          end ;;;
          ib <- scan_frame (List.length b) b sp bp 8 nextbp ;;
          d <- get ;;
          match Fn d with
          | None => panic
          | Some f =>
              if String.eqb (Name f) "main.main"
                 || String.eqb (Name f) "runtime.main"
              then ret Break
              else ret (Next (u64 (sp + fst ib)) (snd ib))
          end
      end
  end.

(** The body of the outer [for].  [nextbp] is declared outside the loop
    and keeps its value from one pass to the next. *)
Definition OutputStack_iter (pid sp bp nextbp : Z) : M Step :=
  fb <- frame_adjust sp bp ;;
  read_frame pid sp (fst fb) (snd fb) nextbp.

(** The outer [for]: [sp = sp + i; bp = nextbp]. *)
Fixpoint OutputStack_loop (fuel : nat) (pid sp bp nextbp : Z) : M unit :=
  match fuel with
  | O => out_of_fuel
  | S fuel' =>
      s <- OutputStack_iter pid sp bp nextbp ;;
      match s with
      | Break => ret tt
      | Next sp' nextbp' => OutputStack_loop fuel' pid sp' nextbp' nextbp'
      end
  end.

Definition OutputStack (fuel : nat) (pid ip sp bp : Z) : M unit :=
  d <- get ;;
  put (set_Fn d (option_map snd (PCToLine (SymTable d) ip))) ;;;
  OutputStack_loop fuel pid sp bp 0 ;;;
  print MNewline.

(* ================================================================== *)
(** ** The control loop *)

(** What the kernel answers during one pass of the wait loop: the
    result of [Wait4], the registers [PtraceGetRegs] would deliver, and
    the error of the request that resumes the tracee.  What the tracee
    stores in its own memory while it runs is not part of the model. *)
Record Event := mkEvent {
  ev_wait : option Errno;
  ev_wpid : Z;
  ev_status : Z;
  ev_regs : PtraceRegs;
  ev_getregs : option Errno;
  ev_resume : option Errno
}.

Definition is_trap (ws : Z) : bool :=
  (StopSignal ws =? SIGTRAP) && negb (TrapCause ws =? PTRACE_EVENT_CLONE).

(** [must(syscall.PtraceCont(wpid, 0))] or
    [must(syscall.PtraceSingleStep(wpid))], by the verdict. *)
Definition resume (verdict : bool) (wpid : Z) (err : option Errno) : M unit :=
  if verdict then emit (ECont wpid) ;;; must err
  else emit (ESingleStep wpid) ;;; must err.

(** Lines 183-186. *)
Definition restore_breakpoint (wpid : Z) : M unit :=
  d <- get ;;
  if BreakpointSet d then
    ReplaceCode wpid (PC d) (OriginalCode d) ;;;
    d <- get ;;
    put (set_BreakpointSet d false)
  else ret tt.

(** Lines 178-186: what happens at a trap before the operator is asked.
    [fn.Name] on the nil [*Func] of an unresolved pc is a panic. *)
Definition trap_stop (fuel : nat) (ev : Event) : M unit :=
  let wpid := ev_wpid ev in
  emit (EGetRegs wpid) ;;;
  must (ev_getregs ev) ;;;
  d <- get ;;
  put (set_Regs d (ev_regs ev)) ;;;
  d <- get ;;
  match PCToLine (SymTable d) (Rip (Regs d)) with
  | None => panic
  | Some (filename, line, fn) =>
      print (MStopped (Name fn) line filename) ;;;
      OutputStack fuel wpid (Rip (Regs d)) (Rsp (Regs d)) (Rbp (Regs d)) ;;;
      restore_breakpoint wpid
  end.

Inductive Loop := Leave | Again.

(** One pass of the [for] of [RunTarget] (lines 169-197). *)
Definition RunTarget_iter (fuel : nat) (pid : Z) (ev : Event)
           (stdin : list string) : M (Loop * list string) :=
  let wpid := ev_wpid ev in
  d <- get ;;
  put (set_Ws d (match ev_wait ev with None => ev_status ev | Some _ => 0 end)) ;;;
  must (ev_wait ev) ;;;
  d <- get ;;
  if Exited (Ws d) then
    if wpid =? pid then ret (Leave, stdin) else ret (Again, stdin)
  else if is_trap (Ws d) then
    trap_stop fuel ev ;;;
    r <- InputOrContinue wpid stdin ;;
    resume (fst r) wpid (ev_resume ev) ;;;
    ret (Again, snd r)
  else
    emit (ECont wpid) ;;;
    must (ev_resume ev) ;;;
    ret (Again, stdin).

(** The wait loop over the events the kernel delivers; when they are
    used up the engine is blocked in [Wait4]. *)
Fixpoint RunTarget_loop (fuel : nat) (pid : Z) (evs : list Event)
         (stdin : list string) : M (Loop * list string) :=
  match evs with
  | [] => ret (Again, stdin)
  | ev :: evs' =>
      r <- RunTarget_iter fuel pid ev stdin ;;
      match fst r with
      | Leave => ret r
      | Again => RunTarget_loop fuel pid evs' (snd r)
      end
  end.

(** Lines 153-167: the start of [RunTarget] once the child is spawned. *)
Record Spawn := mkSpawn {
  sp_pid : Z;
  sp_wait_err : bool;
  sp_setoptions : option Errno;
  sp_resume : option Errno
}.

Definition RunTarget_start (s : Spawn) (stdin : list string)
  : M (list string) :=
  (if sp_wait_err s then print MWaitReturned else ret tt) ;;;
  emit (ESetOptions (sp_pid s)) ;;;
  must (sp_setoptions s) ;;;
  r <- InputOrContinue (sp_pid s) stdin ;;
  resume (fst r) (sp_pid s) (sp_resume s) ;;;
  ret (snd r).

Definition RunTarget (fuel : nat) (s : Spawn) (evs : list Event)
           (stdin : list string) : M (Loop * list string) :=
  stdin' <- RunTarget_start s stdin ;;
  RunTarget_loop fuel (sp_pid s) evs stdin'.

(** [Run] after [GetSymbolTable]: the session starts at the entry of
    [main.main]; [d.Fn.Entry] on an unknown function is a panic. *)
Definition Run (fuel : nat) (s : Spawn) (evs : list Event)
           (stdin : list string) : M (Loop * list string) :=
  d <- get ;;
  match LookupFunc (SymTable d) "main.main" with
  | None => panic
  | Some f =>
      match PCToLine (SymTable d) (Entry f) with
      | Some (file, line, fn) =>
          put (mkDebugger file line (PC d) (Some fn) (SymTable d) (Regs d)
                          (Ws d) (OriginalCode d) (BreakpointSet d)
                          (InterruptCode d))
      | None =>
          put (mkDebugger "" 0 (PC d) None (SymTable d) (Regs d)
                          (Ws d) (OriginalCode d) (BreakpointSet d)
                          (InterruptCode d))
      end ;;;
      RunTarget fuel s evs stdin
  end.

(** The world in which [Run] starts: a fresh [Debugger] and the memory
    of the freshly spawned tracee. *)
Definition initial (tbl : Table) (m : Mem) : World :=
  mkWorld (NewDebugger tbl) m [].

(** [w] with more effects logged. *)
Definition log (w : World) (es : list Effect) : World :=
  mkWorld (dbg w) (mem w) (trace w ++ es).

(** The world a computation ends in, if it ends or spins. *)
Definition outcome {A} (r : Res A) : option World :=
  match r with
  | Ok _ w | Panic w | Exit w | Spin w => Some w
  | OutOfFuel => None
  end.


(** Pointwise equality of memories. *)
Definition mem_eq (m m' : Mem) : Prop := forall a, m a = m' a.

(** Effects that only observe the tracee: output and reads. *)
Definition observes (e : Effect) : bool :=
  match e with
  | EPrint _ | EPeek _ _ _ => true
  | _ => false
  end.

(** Effects that let the tracee run again. *)
Definition resumes (e : Effect) : bool :=
  match e with
  | ECont _ | ESingleStep _ => true
  | _ => false
  end.

(** Is the entry one of the menu letters? *)
Definition is_command (input : string) : bool :=
  let cmd := ToUpper input in
  String.eqb cmd "C" || String.eqb cmd "S" || String.eqb cmd "B"
  || String.eqb cmd "Q".

(** ** Relations between the world before and after a computation *)

(** [m], started in [w], ends (if it ends at all) in a world related to
    [w] by [R]. *)
Definition ends_within {A} (R : World -> World -> Prop) (m : M A)
           (w : World) : Prop :=
  match outcome (m w) with
  | Some w' => R w w'
  | None => True
  end.

(** Of the struct only [Fn] may differ, the tracee's memory is the same
    and what was logged are prints and reads. *)
Definition changes_only_Fn (w w' : World) : Prop :=
  exists fn t,
    w' = mkWorld (set_Fn (dbg w) fn) (mem w) (trace w ++ t)%list /\
    forallb observes t = true.

(** ** The single breakpoint *)

(** The state of the breakpoint with respect to [base], the tracee's
    memory without any patch: either no breakpoint is set and the memory
    is [base], or one is set, the memory is [base] with the trap byte
    written at [PC], and [OriginalCode] is the byte of [base] there. *)
Definition armed (base : Mem) (w : World) : Prop :=
  let d := dbg w in
  InterruptCode d = [xcc] /\
  if BreakpointSet d
  then mem_eq (mem w) (fst (poke_bytes base (PC d) [xcc])) /\
       OriginalCode d = fst (peek_bytes base (PC d) [x00])
  else mem_eq (mem w) base.

(** Nothing that concerns the breakpoint differs between [w] and [w'],
    and no request logged in between lets the tracee run. *)
Definition same_breakpoint (w w' : World) : Prop :=
  mem w' = mem w /\
  PC (dbg w') = PC (dbg w) /\
  OriginalCode (dbg w') = OriginalCode (dbg w) /\
  BreakpointSet (dbg w') = BreakpointSet (dbg w) /\
  InterruptCode (dbg w') = InterruptCode (dbg w) /\
  exists t, trace w' = (trace w ++ t)%list /\ existsb resumes t = false.

(** [m], started in [w], can only return, panic or run out of fuel, and
    where it returns or panics the world is related to [w] by [R]. *)
Definition halts_within {A} (R : World -> World -> Prop) (m : M A)
           (w : World) : Prop :=
  match m w with
  | Ok _ w' | Panic w' => R w w'
  | OutOfFuel => True
  | Exit _ | Spin _ => False
  end.

(** The relation "the world reached satisfies [P]". *)
Definition reaches (P : World -> Prop) : World -> World -> Prop :=
  fun _ w' => P w'.

(** Two distinct addresses hold a trap byte that [base] does not hold. *)
Definition two_traps (base m : Mem) : Prop :=
  exists a1 a2,
    a1 <> a2 /\
    m a1 = Some xcc /\ base a1 <> Some xcc /\
    m a2 = Some xcc /\ base a2 <> Some xcc.

(* ================================================================== *)
(** ** A small target used for concrete runs *)

Module Examples.

Definition f_compute : Func := mkFunc "main.compute" 4096.
Definition f_main : Func := mkFunc "main.main" 8192.

(** Lines 10 and 20 of a.go carry code, line 30 resolves to a pc that
    is not mapped; pcs 4096.. belong to [main.compute] and pcs 8192..
    to [main.main]. *)
Definition tbl : Table :=
  mkTable
    (fun _ l => if l =? 10 then Some 4100
                else if l =? 20 then Some 4200
                else if l =? 30 then Some 70000 else None)
    (fun pc => if (4096 <=? pc) && (pc <? 4300) then Some ("a.go", 10, f_compute)
               else if (8192 <=? pc) && (pc <? 8300) then Some ("a.go", 30, f_main)
               else None)
    (fun n => if String.eqb n "main.main" then Some f_main else None).

(** The first 64 KiB are mapped and hold zero, but for the word at
    1024, which holds 8200 (a pc of [main.main]). *)
Definition m0 : Mem :=
  fun a => if a =? 1024 then Some x08
           else if a =? 1025 then Some x20
           else if (0 <=? a) && (a <? 65536) then Some x00 else None.

(** Every address is mapped and holds zero. *)
Definition m_full : Mem := fun _ => Some x00.

Definition d0 : Debugger :=
  mkDebugger "a.go" 0 0 (Some f_compute) tbl (mkRegs 0 0 0) 0 [] false [xcc].

Definition w0 : World := mkWorld d0 m0 [].

Definition w_full : World := mkWorld d0 m_full [].

(** The session after the operator has asked for a breakpoint at line
    10: the trap byte is at 4100 and the byte it replaced is saved. *)
Definition d_armed : Debugger :=
  mkDebugger "a.go" 10 4100 (Some f_compute) tbl (mkRegs 0 0 0) 0
             [x00] true [xcc].

Definition w_armed : World :=
  mkWorld d_armed (fst (poke_bytes m0 4100 [xcc])) [].

(** A stop with SIGTRAP ([0x057f]) of tracee 7. *)
Definition ev_trap : Event :=
  mkEvent None 7 1407 (mkRegs 4100 1024 1040) None None.

(** A thread-creation notification ([0x3057f]) of tracee 7. *)
Definition ev_clone : Event :=
  mkEvent None 7 198015 (mkRegs 0 0 0) None None.

End Examples.

(* ================================================================== *)
(** ** Vocabulary of the further properties *)

(** The messages among the effects, in order. *)
Fixpoint printed (t : list Effect) : list Msg :=
  match t with
  | [] => []
  | EPrint m :: t' => m :: printed t'
  | _ :: t' => printed t'
  end.

(** What the menu says for each line that is no menu letter while no
    line number is awaited. *)
Definition unexpected (junk : list string) : list Effect :=
  flat_map (fun j => [EPrint (MUnexpected j); EPrint MPrompt]) junk.

Definition no_command (lines : list string) : bool :=
  forallb (fun j => negb (is_command j)) lines.

(** Effects the menu may have: output, and the read and the write of
    [ReplaceCode]. *)
Definition menu_effect (e : Effect) : bool :=
  match e with
  | EPrint _ | EPeek _ _ _ | EPoke _ _ _ => true
  | _ => false
  end.

(** What a call of the menu leaves alone: the fields it never assigns,
    and the kinds of requests it never makes; every write it makes is a
    write of [InterruptCode]. *)
Definition menu_keeps (w w' : World) : Prop :=
  TargetFile (dbg w') = TargetFile (dbg w) /\
  Fn (dbg w') = Fn (dbg w) /\
  SymTable (dbg w') = SymTable (dbg w) /\
  Regs (dbg w') = Regs (dbg w) /\
  Ws (dbg w') = Ws (dbg w) /\
  InterruptCode (dbg w') = InterruptCode (dbg w) /\
  exists t,
    trace w' = (trace w ++ t)%list /\
    forallb menu_effect t = true /\
    forall pid a data, In (EPoke pid a data) t -> data = InterruptCode (dbg w).

(** The two names at which the stack walk stops. *)
Definition is_sentinel (name : string) : bool :=
  String.eqb name "main.main" || String.eqb name "runtime.main".

(** The 64-bit word the tracee holds at [a], if its eight bytes can be
    read. *)
Definition load64 (m : Mem) (a : Z) : option Z :=
  match peek_bytes m a (repeat x00 8) with
  | (bs, None) => Some (Uint64 bs)
  | (_, Some _) => None
  end.

(** A conventional frame: [bp] at least one word above [sp] and at most
    992 bytes, on a word boundary from [sp], and not at the very top of
    the address space. *)
Definition frame_bounds (sp bp : Z) : bool :=
  (0 <=? sp) && (sp + 8 <=? bp) && (bp - sp <=? 992)
  && ((bp - sp) mod 8 =? 0) && (bp + 8 <? two64).

(** The word at [sp] and the word at [bp] of a frame that can be read
    in full. *)
Definition frame_words (m : Mem) (sp bp : Z) : option (Z * Z) :=
  match snd (peek_bytes m sp (repeat x00 (Z.to_nat (bp - sp + 8)))),
        load64 m sp, load64 m bp with
  | None, Some ra, Some nbp => Some (ra, nbp)
  | _, _, _ => None
  end.

(** A chain of conventional frames starting at [(sp, bp)]: the word at
    [sp] of each frame resolves to the next caller (its name and line),
    the word at [bp] is the frame pointer of the frame that starts just
    above, and only the last caller is a sentinel. *)
Fixpoint frame_chain (tbl : Table) (m : Mem) (sp bp : Z)
         (callers : list (string * Z)) : bool :=
  match callers with
  | [] => false
  | (name, line) :: rest =>
      frame_bounds sp bp &&
      match frame_words m sp bp with
      | Some (ra, nbp) =>
          match PCToLine tbl ra with
          | Some (_, l, f) =>
              String.eqb (Name f) name && (l =? line) &&
              match rest with
              | [] => is_sentinel name
              | _ :: _ =>
                  negb (is_sentinel name)
                  && frame_chain tbl m (bp + 8) nbp rest
              end
          | None => false
          end
      | None => false
      end
  end.


(** A stack of two conventional frames for the target of [Examples]:
    the frame at [(2000, 2016)] returns to pc 4200 in [main.compute]
    and its saved frame pointer is 2048; the frame above it, at
    [(2024, 2048)], returns to pc 8200 in [main.main]. *)
Module Chain.

Definition m : Mem :=
  fun a => if a =? 2000 then Some x68
           else if a =? 2001 then Some x10
           else if a =? 2017 then Some x08
           else if a =? 2024 then Some x08
           else if a =? 2025 then Some x20
           else if (0 <=? a) && (a <? 65536) then Some x00 else None.

Definition w : World := mkWorld Examples.d0 m [].

Definition callers : list (string * Z) :=
  [("main.compute", 10); ("main.main", 30)].

End Chain.


(** Exit events for the wait loop: status 0 is "exited with code 0". *)
Module Stops.

Definition ev_exit_main : Event :=
  mkEvent None 1 0 (mkRegs 0 0 0) None None.

Definition ev_exit_thread : Event :=
  mkEvent None 9 0 (mkRegs 0 0 0) None None.

(** A trap of tracee 7 at a pc the symbol table does not know. *)
Definition ev_trap_unknown : Event :=
  mkEvent None 7 1407 (mkRegs 12345 1024 1040) None None.

End Stops.

(** What stays true of the request behind a breakpoint: the symbol
    table and the trap instruction are those of the session, and while
    a breakpoint is set [PC] is the address the resolver gives for
    [(TargetFile, Line)]. *)
Definition request_ok (tbl : Table) (w : World) : Prop :=
  let d := dbg w in
  SymTable d = tbl /\
  InterruptCode d = [xcc] /\
  (BreakpointSet d = true -> LineToPC tbl (TargetFile d) (Line d) = Some (PC d)).

(** Between [w] and [w'] the request is the same, except that the
    breakpoint may have been cleared. *)
Definition same_request (w w' : World) : Prop :=
  SymTable (dbg w') = SymTable (dbg w) /\
  InterruptCode (dbg w') = InterruptCode (dbg w) /\
  TargetFile (dbg w') = TargetFile (dbg w) /\
  Line (dbg w') = Line (dbg w) /\
  PC (dbg w') = PC (dbg w) /\
  (BreakpointSet (dbg w') = BreakpointSet (dbg w)
   \/ BreakpointSet (dbg w') = false).


(** The file the session is bound to: the one [PCToLine] gives for the
    entry of [main.main], or the empty string when it gives none. *)
Definition main_file (tbl : Table) : string :=
  match LookupFunc tbl "main.main" with
  | Some f =>
      match PCToLine tbl (Entry f) with
      | Some (file, _, _) => file
      | None => ""
      end
  | None => ""
  end.

(** The request is sound and names the file of [main.main]. *)
Definition session_ok (tbl : Table) (w : World) : Prop :=
  request_ok tbl w /\ TargetFile (dbg w) = main_file tbl.


(** The requests of a stack walk on behalf of tracee [pid]: output, and
    reads of at most 1000 bytes from that tracee. *)
Definition small_read (pid : Z) (e : Effect) : bool :=
  match e with
  | EPrint _ => true
  | EPeek p _ n => (p =? pid) && (n <=? 1000)%nat
  | _ => false
  end.

(** From [w] to [w'] only such requests were logged. *)
Definition reads_of (pid : Z) (w w' : World) : Prop :=
  exists t, trace w' = (trace w ++ t)%list /\ forallb (small_read pid) t = true.


(* ================================================================== *)
(** * Properties *)

(** ** Arithmetic of [uint64] *)

Lemma two64_val : two64 = 18446744073709551616.
Proof. reflexivity. Qed.

Lemma u64_range (z : Z) : 0 <= u64 z < two64.
Proof. unfold u64. apply Z.mod_pos_bound. rewrite two64_val. lia. Qed.

Lemma u64_small (z : Z) : 0 <= z < two64 -> u64 z = z.
Proof. intros H. unfold u64. now apply Z.mod_small. Qed.

Lemma u64_neg (z : Z) : - two64 <= z < 0 -> u64 z = z + two64.
Proof.
  intros H. unfold u64. symmetry.
  apply Z.mod_unique with (q := -1); lia.
Qed.

(** ** The frame-size check *)

(** The two ways a pass of the stack walk starts. *)
Lemma OutputStack_iter_cases (pid sp bp nextbp : Z) (w : World) :
  let frameSize := u64 (bp - sp + 8) in
  ((frameSize > 1000 \/ bp = 0) /\
   OutputStack_iter pid sp bp nextbp w =
     read_frame pid sp 32 (u64 (sp + 32 - 8)) nextbp
                (log w [EPrint (MStrange sp bp)]))
  \/
  (~ (frameSize > 1000 \/ bp = 0) /\
   OutputStack_iter pid sp bp nextbp w =
     read_frame pid sp frameSize bp nextbp w).
Proof.
  intros frameSize.
  unfold OutputStack_iter, frame_adjust, bind. fold frameSize.
  destruct (frameSize >? 1000) eqn:Hbig; simpl.
  - left. split; [left; now apply Z.gtb_lt in Hbig; lia | reflexivity].
  - destruct (bp =? 0) eqn:Hz; simpl.
    + left. apply Z.eqb_eq in Hz. split; [now right | reflexivity].
    + right. apply Z.eqb_neq in Hz.
      assert (~ frameSize > 1000).
      { intros Hgt. apply Z.gt_lt in Hgt. apply Z.gtb_lt in Hgt. congruence. }
      split; [tauto | reflexivity].
Qed.

(** C5.  In every pass of the stack walk the frame size is
    [bp - sp + 8] in 64-bit arithmetic; exactly when it exceeds 1000 or
    [bp] is 0 the pass prints the diagnostic with the observed [sp] and
    [bp] and goes on with a frame of 32 bytes and [bp = sp + 32 - 8];
    otherwise it goes on with the computed size and the given [bp]. *)
Theorem frame_fallback_exact (pid sp bp nextbp : Z) (w : World) :
  let frameSize := u64 (bp - sp + 8) in
  ((frameSize > 1000 \/ bp = 0) /\
   OutputStack_iter pid sp bp nextbp w =
     read_frame pid sp 32 (u64 (sp + 32 - 8)) nextbp
                (log w [EPrint (MStrange sp bp)]))
  \/
  (~ (frameSize > 1000 \/ bp = 0) /\
   OutputStack_iter pid sp bp nextbp w =
     read_frame pid sp frameSize bp nextbp w).
Proof. apply OutputStack_iter_cases. Qed.

(** C9, as amended.  When [bp + 8 < sp] and the two are less than
    [2^64 - 992] apart, [bp - sp + 8] wraps around to
    [2^64 + bp + 8 - sp], which exceeds 1000, and the pass takes the
    32-byte fallback. *)
Theorem frame_below_sp_falls_back (sp bp : Z) (w : World) :
  0 <= bp -> bp + 8 < sp -> sp < two64 -> sp - bp < two64 - 992 ->
  u64 (bp - sp + 8) = two64 + bp + 8 - sp /\
  u64 (bp - sp + 8) > 1000 /\
  frame_adjust sp bp w =
    Ok (32, u64 (sp + 32 - 8)) (log w [EPrint (MStrange sp bp)]).
Proof.
  intros Hbp Hlt Hsp Hgap.
  assert (Hw : u64 (bp - sp + 8) = two64 + bp + 8 - sp).
  { rewrite u64_neg; lia. }
  split; [exact Hw|]. split; [lia|].
  unfold frame_adjust. rewrite Hw.
  replace (two64 + bp + 8 - sp >? 1000) with true
    by (symmetry; apply Z.gtb_lt; lia).
  reflexivity.
Qed.

Lemma frame_below_sp_falls_back_witness :
  (0 <= 50 /\ 50 + 8 < 100 /\ 100 < two64 /\ 100 - 50 < two64 - 992) /\
  u64 (50 - 100 + 8) > 1000.
Proof.
  assert (H0 : 0 <= 50) by lia.
  assert (H1 : 50 + 8 < 100) by lia.
  assert (H2 : 100 < two64) by (rewrite two64_val; lia).
  assert (H3 : 100 - 50 < two64 - 992) by (rewrite two64_val; lia).
  split; [tauto|].
  exact (proj1 (proj2 (frame_below_sp_falls_back 100 50 Examples.w0 H0 H1 H2 H3))).
Defined.

(** C9 as stated fails at the top of the address range: with
    [sp = 2^64 - 1] and [bp = 1] the stack pointer is above [bp + 8],
    yet the difference wraps to 10 and no fallback is taken. *)
Lemma frame_below_sp_no_fallback :
  0 <= 1 < two64 /\ 0 <= two64 - 1 < two64 /\ two64 - 1 > 1 + 8 /\
  u64 (1 - (two64 - 1) + 8) = 10 /\
  ~ u64 (1 - (two64 - 1) + 8) > 1000 /\
  frame_adjust (two64 - 1) 1 Examples.w0 = Ok (10, 1) Examples.w0.
Proof.
  assert (E : u64 (1 - (two64 - 1) + 8) = 10) by reflexivity.
  rewrite E, two64_val.
  repeat split; try lia; reflexivity.
Qed.

(** ** Errors of the memory requests *)

(** C3, at the failing input.  [ReplaceCode] at an address that cannot
    be read or written returns normally: both requests are made, both
    errors are dropped, the caller receives the zeroed buffer as the
    saved bytes and nothing is written. *)
Theorem ReplaceCode_drops_errors (pid addr : Z) (b : byte) (code : list byte)
        (w : World) :
  mem w (u64 addr) = None ->
  ReplaceCode pid addr (b :: code) w =
    Ok (repeat x00 (S (List.length code)))
       (log w [EPeek pid addr (S (List.length code)); EPoke pid addr (b :: code)]).
Proof.
  intros Hun.
  unfold ReplaceCode, bind, PtracePeekData, PtracePokeData, ret, log.
  cbn [List.length repeat peek_bytes poke_bytes mem dbg trace].
  rewrite Hun. cbn [fst].
  rewrite repeat_length, <- app_assoc. reflexivity.
Qed.

Lemma ReplaceCode_drops_errors_witness :
  mem Examples.w0 (u64 70000) = None /\
  ReplaceCode 7 70000 [xcc] Examples.w0 =
    Ok [x00] (log Examples.w0 [EPeek 7 70000 1; EPoke 7 70000 [xcc]]).
Proof.
  split; [reflexivity|].
  exact (ReplaceCode_drops_errors 7 70000 xcc [] Examples.w0 eq_refl).
Defined.

(** Through the menu: a breakpoint requested at a pc that is not mapped
    is recorded as set, with a zero byte as its saved code, and the
    verdict is "continue". *)
Lemma breakpoint_on_unmapped_pc :
  InputOrContinue 7 ["B"; "30"] Examples.w0 =
    Ok (true, [])
       (mkWorld (mkDebugger "a.go" 30 70000 (Some Examples.f_compute)
                            Examples.tbl (mkRegs 0 0 0) 0 [x00] true [xcc])
                Examples.m0
                [EPrint MPrompt; EPrint (MEnterLine "a.go");
                 EPeek 7 70000 1; EPoke 7 70000 [xcc]]).
Proof. reflexivity. Qed.

(** The sibling path: a failed read in the stack walk is a panic. *)
Lemma read_frame_peek_error (pid sp frameSize bp nextbp : Z) (w : World) :
  snd (peek_bytes (mem w) sp (repeat x00 (Z.to_nat frameSize))) <> None ->
  read_frame pid sp frameSize bp nextbp w =
    Panic (log w [EPeek pid sp (Z.to_nat frameSize)]).
Proof.
  intros Herr. unfold read_frame, bind, PtracePeekData.
  cbn [snd fst mem].
  destruct (snd (peek_bytes (mem w) sp (repeat x00 (Z.to_nat frameSize))));
    [|congruence].
  unfold panic, log. now rewrite repeat_length.
Qed.

(** ** Stops that are not traps *)

(** C8.  A stop that is not an exit and whose signal is not SIGTRAP, or
    that is a thread-creation notification, is answered by one
    [PtraceCont] of that tracee and nothing else: no registers are read,
    nothing is printed, no input is consumed, and the loop goes on
    waiting (or aborts if the request fails). *)
Theorem other_stop_resumed (fuel : nat) (pid : Z) (ev : Event)
        (stdin : list string) (w : World) :
  ev_wait ev = None ->
  Exited (ev_status ev) = false ->
  StopSignal (ev_status ev) <> SIGTRAP
  \/ TrapCause (ev_status ev) = PTRACE_EVENT_CLONE ->
  let w' := mkWorld (set_Ws (dbg w) (ev_status ev)) (mem w)
                    (trace w ++ [ECont (ev_wpid ev)]) in
  RunTarget_iter fuel pid ev stdin w =
    match ev_resume ev with
    | None => Ok (Again, stdin) w'
    | Some _ => Panic w'
    end.
Proof.
  intros Hwait Hex Hother w'.
  unfold RunTarget_iter, bind, get, put, must. rewrite Hwait.
  cbn [ret dbg Ws set_Ws mem trace]. rewrite Hex.
  assert (Hnt : is_trap (ev_status ev) = false).
  { unfold is_trap. destruct Hother as [Hs | Hc].
    - apply Z.eqb_neq in Hs. now rewrite Hs.
    - rewrite Hc, Z.eqb_refl. cbn. apply andb_false_r. }
  rewrite Hnt. unfold emit. cbn [dbg mem trace].
  destruct (ev_resume ev); reflexivity.
Qed.

Lemma other_stop_resumed_witness :
  (ev_wait Examples.ev_clone = None /\
   Exited (ev_status Examples.ev_clone) = false /\
   TrapCause (ev_status Examples.ev_clone) = PTRACE_EVENT_CLONE) /\
  RunTarget_iter 0 1 Examples.ev_clone ["c"] Examples.w0 =
    Ok (Again, ["c"])
       (mkWorld (set_Ws Examples.d0 198015) Examples.m0 [ECont 7]).
Proof.
  split; [repeat split|].
  refine (other_stop_resumed 0 1 Examples.ev_clone ["c"] Examples.w0
            eq_refl eq_refl _).
  right. reflexivity.
Defined.

(** ** The breakpoint manager and the menu *)

Lemma ReplaceCode_eq (pid addr : Z) (code : list byte) (w : World) :
  ReplaceCode pid addr code w =
    Ok (fst (peek_bytes (mem w) addr (repeat x00 (List.length code))))
       (mkWorld (dbg w) (fst (poke_bytes (mem w) addr code))
                (trace w ++ [EPeek pid addr (List.length code);
                             EPoke pid addr code])).
Proof.
  unfold ReplaceCode, bind, PtracePeekData, PtracePokeData, ret.
  cbn [mem dbg trace].
  destruct (poke_bytes (mem w) addr code) as [m' e].
  now rewrite repeat_length, <- app_assoc.
Qed.

Lemma SetBreak_eq (pid : Z) (w : World) :
  let d := dbg w in
  SetBreak pid w =
    match LineToPC (SymTable d) (TargetFile d) (Line d) with
    | None =>
        Ok (false, [])
           (mkWorld (set_PC d 0) (mem w)
                    (trace w ++ [EPrint (MCantFind (TargetFile d) (Line d))]))
    | Some pc =>
        let code := InterruptCode d in
        Ok (true, fst (peek_bytes (mem w) pc (repeat x00 (List.length code))))
           (mkWorld (set_PC d pc) (fst (poke_bytes (mem w) pc code))
                    (trace w ++ [EPeek pid pc (List.length code);
                                 EPoke pid pc code]))
    end.
Proof.
  intros d. unfold SetBreak, bind, get. fold d.
  destruct (LineToPC (SymTable d) (TargetFile d) (Line d)) as [pc|].
  - unfold put. cbn [mem trace]. rewrite ReplaceCode_eq. reflexivity.
  - reflexivity.
Qed.

Lemma request_break_eq (pid : Z) (input : string) (w : World) :
  request_break pid input w =
    match SetBreak pid (mkWorld (set_Line (dbg w) (fst (Atoi input)))
                                (mem w) (trace w)) with
    | Ok r w1 =>
        Ok true (mkWorld (set_OriginalCode (set_BreakpointSet (dbg w1) (fst r))
                                           (snd r))
                         (mem w1) (trace w1))
    | Panic w1 => Panic w1
    | Exit w1 => Exit w1
    | Spin w1 => Spin w1
    | OutOfFuel => OutOfFuel
    end.
Proof.
  unfold request_break, bind, get, put. cbn [dbg mem trace].
  destruct (SetBreak pid _); reflexivity.
Qed.

(** An entry that is not a menu letter reaches the [default] arm. *)
Lemma default_arm (pid : Z) (sub : bool) (input : string)
      (rest : list string) :
  is_command input = false ->
  InputOrContinue_loop pid sub (input :: rest) =
    if sub then b <- request_break pid input ;; ret (b, rest)
    else print (MUnexpected input) ;;; print MPrompt ;;;
         InputOrContinue_loop pid sub rest.
Proof.
  unfold is_command. intros H.
  apply orb_false_elim in H as [H HQ].
  apply orb_false_elim in H as [H HB].
  apply orb_false_elim in H as [HC HS].
  cbn [InputOrContinue_loop]. now rewrite HC, HS, HB, HQ.
Qed.

(** The entry "B" (in either case) switches the loop to line entry. *)
Lemma chosen_B (pid : Z) (sub : bool) (input : string) (rest : list string)
      (w : World) :
  ToUpper input = "B" ->
  InputOrContinue_loop pid sub (input :: rest) w =
    InputOrContinue_loop pid true rest
      (log w [EPrint (MEnterLine (TargetFile (dbg w)))]).
Proof.
  intros H. cbn [InputOrContinue_loop]. rewrite H. reflexivity.
Qed.

Lemma ParseUint_loop_syntax (s : string) (n : Z) :
  snd (ParseUint_loop s n) = Some ErrSyntax -> fst (ParseUint_loop s n) = 0.
Proof.
  revert n. induction s as [|c s IH]; intros n; cbn [ParseUint_loop].
  - discriminate.
  - destruct (digit_of c); [|reflexivity].
    destruct (n >=? cutoff); [discriminate|].
    destruct (n * 10 + z >? maxUint64); [discriminate|]. apply IH.
Qed.

(** A syntax error of [strconv.Atoi] comes with the value 0. *)
Lemma Atoi_syntax_zero (s : string) :
  snd (Atoi s) = Some ErrSyntax -> fst (Atoi s) = 0.
Proof.
  unfold Atoi, ParseInt. destruct s as [|c s]; [reflexivity|].
  destruct (ParseUint _) as [un [[|]|]]; cbn [fst snd].
  - reflexivity.
  - destruct (negb (Ascii.eqb c "-") && (un >=? 2 ^ 63)); [discriminate|].
    destruct (Ascii.eqb c "-" && (un >? 2 ^ 63)); discriminate.
  - destruct (negb (Ascii.eqb c "-") && (un >=? 2 ^ 63)); [discriminate|].
    destruct (Ascii.eqb c "-" && (un >? 2 ^ 63)); discriminate.
Qed.

(** C7, as amended.  When the resolver has no address for the requested
    line, [SetBreak] prints its diagnostic and returns [false] with no
    saved bytes, without any request on the tracee's memory; the menu
    then records that no breakpoint is set and returns the verdict
    "continue" at once: no new prompt is printed and no further line is
    read. *)
Theorem unresolved_breakpoint_continues (pid : Z) (input : string)
        (rest : list string) (w : World) :
  let line := fst (Atoi input) in
  let file := TargetFile (dbg w) in
  let asked := set_Line (dbg w) line in
  is_command input = false ->
  LineToPC (SymTable (dbg w)) file line = None ->
  SetBreak pid (mkWorld asked (mem w) (trace w)) =
    Ok (false, [])
       (mkWorld (set_PC asked 0) (mem w)
                (trace w ++ [EPrint (MCantFind file line)]))
  /\
  InputOrContinue_loop pid true (input :: rest) w =
    Ok (true, rest)
       (mkWorld (set_OriginalCode (set_BreakpointSet (set_PC asked 0) false) [])
                (mem w)
                (trace w ++ [EPrint (MCantFind file line)])).
Proof.
  intros line file asked Hcmd Hres.
  assert (HS : SetBreak pid (mkWorld asked (mem w) (trace w)) =
               Ok (false, [])
                  (mkWorld (set_PC asked 0) (mem w)
                           (trace w ++ [EPrint (MCantFind file line)]))).
  { rewrite SetBreak_eq. cbn [dbg mem trace].
    unfold asked at 1 2 3. cbn [SymTable TargetFile Line set_Line].
    fold file. rewrite Hres. reflexivity. }
  split; [exact HS|].
  rewrite (default_arm pid true input rest Hcmd).
  unfold bind at 1. rewrite request_break_eq. fold line asked. rewrite HS.
  reflexivity.
Qed.

Lemma unresolved_breakpoint_continues_witness :
  (is_command "7" = false /\
   LineToPC Examples.tbl "a.go" (fst (Atoi "7")) = None) /\
  InputOrContinue_loop 7 true ["7"; "C"] Examples.w0 =
    Ok (true, ["C"])
       (mkWorld (set_OriginalCode
                   (set_BreakpointSet (set_PC (set_Line Examples.d0 7) 0) false) [])
                Examples.m0 [EPrint (MCantFind "a.go" 7)]).
Proof.
  split; [split; reflexivity|].
  exact (proj2 (unresolved_breakpoint_continues 7 "7" ["C"] Examples.w0
                  eq_refl eq_refl)).
Defined.

(** C7 as stated fails on the re-prompt: after the failed request for
    line 7 the menu has printed nothing after the diagnostic, has left
    the next line unread, and the pass of the wait loop ends with
    [PtraceCont]. *)
Lemma unresolved_breakpoint_not_reprompted :
  LineToPC Examples.tbl "a.go" 7 = None /\
  InputOrContinue 7 ["B"; "7"; "C"] Examples.w0 =
    Ok (true, ["C"])
       (mkWorld (set_OriginalCode
                   (set_BreakpointSet (set_PC (set_Line Examples.d0 7) 0) false) [])
                Examples.m0
                [EPrint MPrompt; EPrint (MEnterLine "a.go");
                 EPrint (MCantFind "a.go" 7)]) /\
  RunTarget_iter 1 1 Examples.ev_trap ["B"; "7"; "C"] Examples.w0 =
    Ok (Again, ["C"])
       (mkWorld
          (mkDebugger "a.go" 7 0 (Some Examples.f_main) Examples.tbl
                      (mkRegs 4100 1024 1040) 1407 [] false [xcc])
          Examples.m0
          [EGetRegs 7; EPrint (MStopped "main.compute" 10 "a.go");
           EPeek 7 1024 24; EPrint (MCalledBy "main.main" 30);
           EPrint MNewline; EPrint MPrompt; EPrint (MEnterLine "a.go");
           EPrint (MCantFind "a.go" 7); ECont 7]).
Proof.
  repeat split.
Qed.

(** [SetBreak] always returns; it leaves [Line] alone and prints no
    "Unexpected input". *)
Lemma SetBreak_returns (pid : Z) (w : World) :
  exists r w1 t,
    SetBreak pid w = Ok r w1 /\
    Line (dbg w1) = Line (dbg w) /\
    trace w1 = (trace w ++ t)%list /\
    forall s, ~ In (EPrint (MUnexpected s)) t.
Proof.
  pose proof (SetBreak_eq pid w) as E. cbv zeta in E.
  destruct (LineToPC _ _ _) as [pc|]; do 3 eexists;
    (split; [exact E|]); (split; [reflexivity|]);
    (split; [reflexivity|]); intros s Hin; cbn in Hin;
    intuition discriminate.
Qed.

(** C10, as amended.  Once "B" has been chosen, an entry that is not a
    menu letter and that [strconv.Atoi] rejects as a syntax error sets
    the line to 0 (the error is dropped); [SetBreak] is then run for
    line 0 and its results stored, the verdict is "continue", the lines
    after the entry stay unread and no "Unexpected input" is printed. *)
Theorem malformed_line_becomes_zero (pid : Z) (input : string)
        (rest : list string) (w : World) :
  is_command input = false ->
  snd (Atoi input) = Some ErrSyntax ->
  exists r w1 t,
    SetBreak pid (mkWorld (set_Line (dbg w) 0) (mem w) (trace w)) = Ok r w1 /\
    InputOrContinue_loop pid true (input :: rest) w =
      Ok (true, rest)
         (mkWorld (set_OriginalCode (set_BreakpointSet (dbg w1) (fst r)) (snd r))
                  (mem w1) (trace w1)) /\
    Line (dbg w1) = 0 /\
    trace w1 = (trace w ++ t)%list /\
    forall s, ~ In (EPrint (MUnexpected s)) t.
Proof.
  intros Hcmd Hsyn.
  destruct (SetBreak_returns pid (mkWorld (set_Line (dbg w) 0) (mem w) (trace w)))
    as (r & w1 & t & HS & HL & Ht & Hun).
  exists r, w1, t. split; [exact HS|]. split.
  - rewrite (default_arm pid true input rest Hcmd).
    unfold bind at 1. rewrite request_break_eq.
    rewrite (Atoi_syntax_zero input Hsyn), HS. reflexivity.
  - split; [exact HL|]. split; [exact Ht | exact Hun].
Qed.

Lemma malformed_line_becomes_zero_witness :
  (is_command "1x" = false /\ snd (Atoi "1x") = Some ErrSyntax) /\
  exists r w1 t,
    SetBreak 7 (mkWorld (set_Line (set_Line Examples.d0 10) 0)
                        Examples.m0 []) = Ok r w1 /\
    InputOrContinue_loop 7 true ["1x"; "C"]
                         (mkWorld (set_Line Examples.d0 10) Examples.m0 []) =
      Ok (true, ["C"])
         (mkWorld (set_OriginalCode (set_BreakpointSet (dbg w1) (fst r)) (snd r))
                  (mem w1) (trace w1)) /\
    Line (dbg w1) = 0 /\
    trace w1 = ([] ++ t)%list /\
    forall s, ~ In (EPrint (MUnexpected s)) t.
Proof.
  split; [split; reflexivity|].
  exact (malformed_line_becomes_zero 7 "1x" ["C"]
           (mkWorld (set_Line Examples.d0 10) Examples.m0 [])
           eq_refl eq_refl).
Defined.

(** C10 as stated fails for an entry that is a menu letter: after "B",
    the entry "S" is no integer, yet no conversion takes place, the line
    stays 10, no breakpoint is requested and the verdict is "step". *)
Lemma menu_letter_after_B :
  snd (Atoi "S") = Some ErrSyntax /\
  InputOrContinue 7 ["B"; "S"]
                  (mkWorld (set_Line Examples.d0 10) Examples.m0 []) =
    Ok (false, [])
       (mkWorld (set_Line Examples.d0 10) Examples.m0
                [EPrint MPrompt; EPrint (MEnterLine "a.go")]).
Proof. split; reflexivity. Qed.

(** A numeral outside the range of [int] is no syntax error: the line
    becomes the largest [int], not 0. *)
Lemma out_of_range_line :
  Atoi "99999999999999999999" = (2 ^ 63 - 1, Some ErrRange) /\
  InputOrContinue_loop 7 true ["99999999999999999999"] Examples.w0 =
    Ok (true, [])
       (mkWorld (set_Line Examples.d0 (2 ^ 63 - 1)) Examples.m0
                [EPrint (MCantFind "a.go" (2 ^ 63 - 1))]).
Proof. split; reflexivity. Qed.

(** ** What the stack walk changes *)

Lemma halts_within_bind {A B} (R : World -> World -> Prop)
      (m : M A) (f : A -> M B) (w : World) :
  (forall x y z, R x y -> R y z -> R x z) ->
  halts_within R m w ->
  (forall a w1, m w = Ok a w1 -> R w w1 -> halts_within R (f a) w1) ->
  halts_within R (bind m f) w.
Proof.
  intros Htrans Hm Hf. unfold halts_within, bind in *.
  destruct (m w) as [a w1| | | |] eqn:E; try exact Hm.
  specialize (Hf a w1 eq_refl Hm).
  destruct (f a w1); eauto.
Qed.

Lemma halts_ends {A} (R : World -> World -> Prop) (m : M A) (w : World) :
  halts_within R m w -> ends_within R m w.
Proof.
  unfold halts_within, ends_within. destruct (m w); cbn; tauto.
Qed.

Lemma changes_only_Fn_refl (w : World) : changes_only_Fn w w.
Proof.
  exists (Fn (dbg w)), []. split; [|reflexivity].
  destruct w as [[] m t]. cbn. now rewrite app_nil_r.
Qed.

Lemma changes_only_Fn_trans (x y z : World) :
  changes_only_Fn x y -> changes_only_Fn y z -> changes_only_Fn x z.
Proof.
  intros (f1 & t1 & -> & H1) (f2 & t2 & -> & H2).
  exists f2, (t1 ++ t2)%list. cbn [dbg mem trace]. split.
  - now rewrite app_assoc.
  - rewrite forallb_app, H1, H2. reflexivity.
Qed.

(** The inner loop touches neither the struct nor the tracee. *)
Lemma scan_frame_pure (fuel : nat) (b : list byte) (sp bp i nextbp : Z)
      (w : World) :
  halts_within eq (scan_frame fuel b sp bp i nextbp) w.
Proof.
  unfold halts_within.
  revert i nextbp. induction fuel as [|fuel IH]; intros i nextbp;
    cbn [scan_frame]; destruct (u64 (sp + i) <=? bp);
    try reflexivity; destruct (slice8 b i); try reflexivity;
    first [exact I | apply IH].
Qed.

Lemma frame_adjust_frame (sp bp : Z) (w : World) :
  halts_within changes_only_Fn (frame_adjust sp bp) w.
Proof.
  unfold halts_within, frame_adjust.
  destruct ((u64 (bp - sp + 8) >? 1000) || (bp =? 0)); cbn.
  - exists (Fn (dbg w)), [EPrint (MStrange sp bp)]. split; [|reflexivity].
    destruct w as [[] m t]. reflexivity.
  - apply changes_only_Fn_refl.
Qed.

Lemma read_frame_frame (pid sp frameSize bp nextbp : Z) (w : World) :
  halts_within changes_only_Fn (read_frame pid sp frameSize bp nextbp) w.
Proof.
  unfold halts_within, read_frame, bind, PtracePeekData, panic, get.
  cbn [mem dbg trace snd fst].
  set (pk := peek_bytes (mem w) sp (repeat x00 (Z.to_nat frameSize))).
  set (e := EPeek pid sp (List.length (repeat x00 (Z.to_nat frameSize)))).
  assert (Hbase : forall fn t, forallb observes t = true ->
            changes_only_Fn w
              (mkWorld (set_Fn (dbg w) fn) (mem w) ((trace w ++ [e]) ++ t)%list)).
  { intros fn t Ht. exists fn, (e :: t). split.
    - now rewrite <- app_assoc.
    - cbn. exact Ht. }
  assert (Hsame : mkWorld (dbg w) (mem w) (trace w ++ [e])%list =
                  mkWorld (set_Fn (dbg w) (Fn (dbg w))) (mem w)
                          ((trace w ++ [e]) ++ [])%list).
  { rewrite app_nil_r. destruct w as [[] m t]. reflexivity. }
  destruct (snd pk).
  { rewrite Hsame. now apply Hbase. }
  destruct (slice8 (fst pk) 0) as [s|].
  2:{ rewrite Hsame. now apply Hbase. }
  unfold put, print, emit. cbv beta. cbn [mem dbg trace].
  destruct (PCToLine (SymTable (dbg w)) (Uint64 s)) as [[[file lineno] nextfn]|].
  - cbv beta. cbn [mem dbg trace].
    match goal with |- context [scan_frame ?f ?b ?s ?p ?i ?n ?w0] =>
      pose proof (scan_frame_pure f b s p i n w0) as Hp;
      unfold halts_within in Hp;
      destruct (scan_frame f b s p i n w0) as [ib w'|w'|w'|w'|] end;
      try contradiction; try exact I; subst w'; cbn [dbg Fn set_Fn].
    + destruct (String.eqb (Name nextfn) "main.main"
                || String.eqb (Name nextfn) "runtime.main");
        cbn [ret]; now apply Hbase.
    + now apply Hbase.
  - unfold ret at 1.
    match goal with |- context [scan_frame ?f ?b ?s ?p ?i ?n ?w0] =>
      pose proof (scan_frame_pure f b s p i n w0) as Hp;
      unfold halts_within in Hp;
      destruct (scan_frame f b s p i n w0) as [ib w'|w'|w'|w'|] end;
      try contradiction; try exact I; subst w'; cbn [dbg].
    + destruct (Fn (dbg w)) as [f|].
      * destruct (String.eqb (Name f) "main.main"
                  || String.eqb (Name f) "runtime.main");
          cbn [ret]; rewrite Hsame; now apply Hbase.
      * rewrite Hsame. now apply Hbase.
    + rewrite Hsame. now apply Hbase.
Qed.

Lemma OutputStack_iter_frame (pid sp bp nextbp : Z) (w : World) :
  halts_within changes_only_Fn (OutputStack_iter pid sp bp nextbp) w.
Proof.
  unfold OutputStack_iter.
  apply halts_within_bind.
  - exact changes_only_Fn_trans.
  - apply frame_adjust_frame.
  - intros fb w1 _ _. apply read_frame_frame.
Qed.

Lemma OutputStack_loop_frame (fuel : nat) (pid sp bp nextbp : Z) (w : World) :
  halts_within changes_only_Fn (OutputStack_loop fuel pid sp bp nextbp) w.
Proof.
  revert sp bp nextbp w. induction fuel as [|fuel IH]; intros sp bp nextbp w.
  - exact I.
  - cbn [OutputStack_loop]. apply halts_within_bind.
    + exact changes_only_Fn_trans.
    + apply OutputStack_iter_frame.
    + intros [|sp' nb'] w1 _ _; [apply changes_only_Fn_refl | apply IH].
Qed.

Lemma OutputStack_frame (fuel : nat) (pid ip sp bp : Z) (w : World) :
  halts_within changes_only_Fn (OutputStack fuel pid ip sp bp) w.
Proof.
  set (w1 := mkWorld (set_Fn (dbg w)
                             (option_map snd (PCToLine (SymTable (dbg w)) ip)))
                     (mem w) (trace w)).
  assert (H1 : changes_only_Fn w w1).
  { exists (option_map snd (PCToLine (SymTable (dbg w)) ip)), [].
    split; [|reflexivity]. unfold w1. now rewrite app_nil_r. }
  assert (H2 : halts_within changes_only_Fn
                 (OutputStack_loop fuel pid sp bp 0 ;;; print MNewline) w1).
  { apply halts_within_bind.
    - exact changes_only_Fn_trans.
    - apply OutputStack_loop_frame.
    - intros _ w2 _ _. unfold halts_within. cbn [print emit].
      exists (Fn (dbg w2)), [EPrint MNewline]. split; [|reflexivity].
      destruct w2 as [[] m t]. reflexivity. }
  unfold halts_within in *.
  change (OutputStack fuel pid ip sp bp w)
    with ((OutputStack_loop fuel pid sp bp 0 ;;; print MNewline) w1).
  revert H2.
  destruct ((OutputStack_loop fuel pid sp bp 0 ;;; print MNewline) w1);
    try tauto; intros H2; exact (changes_only_Fn_trans _ _ _ H1 H2).
Qed.

Theorem OutputStack_changes_only_Fn (fuel : nat) (pid ip sp bp : Z)
        (w : World) :
  ends_within changes_only_Fn (OutputStack fuel pid ip sp bp) w.
Proof. apply halts_ends, OutputStack_frame. Qed.

(** C2 as stated fails: a call at a stop inside [main.compute] whose
    frame returns into [main.main] leaves [Fn] changed. *)
Lemma OutputStack_assigns_Fn :
  OutputStack 1 7 4100 1024 1040 Examples.w0 =
    Ok tt (mkWorld (set_Fn Examples.d0 (Some Examples.f_main)) Examples.m0
                   [EPeek 7 1024 24; EPrint (MCalledBy "main.main" 30);
                    EPrint MNewline]) /\
  Fn (set_Fn Examples.d0 (Some Examples.f_main)) <> Fn (dbg Examples.w0).
Proof. split; [reflexivity | discriminate]. Qed.

(** ** Patching one byte and putting it back *)

Lemma mem_eq_refl (m : Mem) : mem_eq m m.
Proof. intros a. reflexivity. Qed.

Lemma mem_eq_trans (m1 m2 m3 : Mem) :
  mem_eq m1 m2 -> mem_eq m2 m3 -> mem_eq m1 m3.
Proof. intros H1 H2 a. now rewrite H1. Qed.

Lemma upd_mem_eq (m m' : Mem) (a : Z) (b : byte) :
  mem_eq m m' -> mem_eq (upd m a b) (upd m' a b).
Proof. intros H a'. unfold upd. destruct (a' =? a); [reflexivity | apply H]. Qed.

Lemma peek_mem_eq (m m' : Mem) (out : list byte) (addr : Z) :
  mem_eq m m' -> peek_bytes m addr out = peek_bytes m' addr out.
Proof.
  intros H. revert addr. induction out as [|o out IH]; intros addr;
    cbn [peek_bytes]; [reflexivity|].
  rewrite (H (u64 addr)), IH. reflexivity.
Qed.

Lemma poke_mem_eq (data : list byte) (m m' : Mem) (addr : Z) :
  mem_eq m m' ->
  mem_eq (fst (poke_bytes m addr data)) (fst (poke_bytes m' addr data)) /\
  snd (poke_bytes m addr data) = snd (poke_bytes m' addr data).
Proof.
  revert m m' addr. induction data as [|b data IH]; intros m m' addr H;
    cbn [poke_bytes].
  - split; [exact H | reflexivity].
  - rewrite (H (u64 addr)). destruct (m' (u64 addr)).
    + apply IH. now apply upd_mem_eq.
    + split; [exact H | reflexivity].
Qed.

(** Writing the trap over one byte and then writing back what was read
    there gives the memory one started from, also when the address
    cannot be accessed (then neither write happens). *)
Lemma poke_then_restore (base : Mem) (pc : Z) :
  mem_eq (fst (poke_bytes (fst (poke_bytes base pc [xcc])) pc
                          (fst (peek_bytes base pc [x00]))))
         base.
Proof.
  cbn [peek_bytes poke_bytes].
  destruct (base (u64 pc)) as [b|] eqn:E; cbn [fst poke_bytes].
  - unfold upd at 1. rewrite Z.eqb_refl. cbn [fst].
    intros a. unfold upd. destruct (a =? u64 pc) eqn:Ea; [|reflexivity].
    apply Z.eqb_eq in Ea. now subst a.
  - rewrite E. cbn [fst]. apply mem_eq_refl.
Qed.

(** At most the byte at [PC] differs from [base], and only while the
    breakpoint is set. *)
Lemma armed_one_patch (base : Mem) (w : World) (a : Z) :
  armed base w -> mem w a <> base a ->
  BreakpointSet (dbg w) = true /\ a = u64 (PC (dbg w)).
Proof.
  intros [_ H] Hne. destruct (BreakpointSet (dbg w)).
  - split; [reflexivity|]. destruct H as [Hm _].
    rewrite (Hm a) in Hne. cbn [poke_bytes] in Hne.
    destruct (base (u64 (PC (dbg w)))); cbn [fst] in Hne; [|congruence].
    unfold upd in Hne. destruct (a =? u64 (PC (dbg w))) eqn:Ea.
    + now apply Z.eqb_eq in Ea.
    + congruence.
  - exfalso. apply Hne, H.
Qed.

Lemma same_breakpoint_refl (w : World) : same_breakpoint w w.
Proof.
  repeat split. exists []. now rewrite app_nil_r.
Qed.

Lemma same_breakpoint_trans (x y z : World) :
  same_breakpoint x y -> same_breakpoint y z -> same_breakpoint x z.
Proof.
  intros (A1 & A2 & A3 & A4 & A5 & t1 & A6 & A7)
         (B1 & B2 & B3 & B4 & B5 & t2 & B6 & B7).
  repeat split; try congruence.
  exists (t1 ++ t2)%list. split.
  - rewrite B6, A6. now rewrite app_assoc.
  - rewrite existsb_app, A7, B7. reflexivity.
Qed.

Lemma observes_no_resume (t : list Effect) :
  forallb observes t = true -> existsb resumes t = false.
Proof.
  induction t as [|e t IH]; [reflexivity|]. cbn.
  intros H. apply andb_prop in H as [He Ht]. rewrite (IH Ht).
  destruct e; try discriminate; reflexivity.
Qed.

Lemma changes_only_Fn_same_breakpoint (w w' : World) :
  changes_only_Fn w w' -> same_breakpoint w w'.
Proof.
  intros (fn & t & -> & Ht). repeat split.
  exists t. split; [reflexivity | now apply observes_no_resume].
Qed.

Lemma armed_same_breakpoint (base : Mem) (w w' : World) :
  same_breakpoint w w' -> armed base w -> armed base w'.
Proof.
  intros (E1 & E2 & E3 & E4 & E5 & _). unfold armed.
  rewrite E1, E2, E3, E4, E5. tauto.
Qed.

Lemma restore_breakpoint_eq (wpid : Z) (w : World) :
  let d := dbg w in
  restore_breakpoint wpid w =
    if BreakpointSet d then
      Ok tt (mkWorld (set_BreakpointSet d false)
                     (fst (poke_bytes (mem w) (PC d) (OriginalCode d)))
                     (trace w ++ [EPeek wpid (PC d) (List.length (OriginalCode d));
                                  EPoke wpid (PC d) (OriginalCode d)]))
    else Ok tt w.
Proof.
  intros d. unfold restore_breakpoint, bind, get. fold d.
  destruct (BreakpointSet d); [|reflexivity].
  rewrite ReplaceCode_eq. reflexivity.
Qed.

(** Up to the restore, a trap stop changes nothing that concerns the
    breakpoint and lets no tracee run. *)
Lemma trap_stop_spec (fuel : nat) (ev : Event) (w : World) :
  match trap_stop fuel ev w with
  | Ok _ w1 =>
      exists w0, same_breakpoint w w0 /\
                 restore_breakpoint (ev_wpid ev) w0 = Ok tt w1
  | Panic w1 => same_breakpoint w w1
  | OutOfFuel => True
  | Exit _ | Spin _ => False
  end.
Proof.
  unfold trap_stop, bind, emit, must, get, put. cbn [dbg mem trace].
  assert (H0 : same_breakpoint w
                 (mkWorld (dbg w) (mem w) (trace w ++ [EGetRegs (ev_wpid ev)]))).
  { repeat split. now exists [EGetRegs (ev_wpid ev)]. }
  destruct (ev_getregs ev); [exact H0|].
  cbn [ret dbg mem trace Regs set_Regs SymTable].
  destruct (PCToLine (SymTable (dbg w)) (Rip (ev_regs ev)))
    as [[[file line] fn]|].
  2:{ repeat split. now exists [EGetRegs (ev_wpid ev)]. }
  unfold print, emit. cbn [dbg mem trace].
  set (w1 := mkWorld _ _ _).
  assert (H1 : same_breakpoint w w1).
  { repeat split.
    exists [EGetRegs (ev_wpid ev); EPrint (MStopped (Name fn) line file)].
    split; [|reflexivity]. unfold w1. cbn [trace]. now rewrite <- app_assoc. }
  pose proof (OutputStack_frame fuel (ev_wpid ev) (Rip (ev_regs ev))
                (Rsp (ev_regs ev)) (Rbp (ev_regs ev)) w1) as HO.
  unfold halts_within in HO.
  destruct (OutputStack _ _ _ _ _ w1) as [[] w2|w2|w2|w2|]; try contradiction;
    [| |exact I].
  - apply changes_only_Fn_same_breakpoint in HO.
    pose proof (same_breakpoint_trans _ _ _ H1 HO) as H2.
    pose proof (restore_breakpoint_eq (ev_wpid ev) w2) as HR. cbv zeta in HR.
    destruct (restore_breakpoint (ev_wpid ev) w2) as [[] w3|w3|w3|w3|] eqn:E;
      try (destruct (BreakpointSet (dbg w2)); discriminate).
    exists w2. split; [exact H2 | exact E].
  - apply changes_only_Fn_same_breakpoint in HO.
    exact (same_breakpoint_trans _ _ _ H1 HO).
Qed.

Lemma restore_armed (base : Mem) (wpid : Z) (w0 w1 : World) :
  armed base w0 ->
  restore_breakpoint wpid w0 = Ok tt w1 ->
  armed base w1 /\ BreakpointSet (dbg w1) = false /\ mem_eq (mem w1) base.
Proof.
  intros [HI HA] HR. rewrite restore_breakpoint_eq in HR. unfold armed.
  destruct (BreakpointSet (dbg w0)) eqn:EB; injection HR as <-.
  - cbn [dbg mem BreakpointSet InterruptCode set_BreakpointSet].
    destruct HA as [Hm Ho].
    assert (Hb : mem_eq (fst (poke_bytes (mem w0) (PC (dbg w0))
                                         (OriginalCode (dbg w0)))) base).
    { rewrite Ho. eapply mem_eq_trans; [|apply poke_then_restore].
      now apply poke_mem_eq. }
    tauto.
  - rewrite EB. tauto.
Qed.

(** ** Single-shot breakpoints *)

(** The pass for a genuine trap: the handler, then the menu, then the
    resume. *)
Lemma trap_pass_eq (fuel : nat) (pid : Z) (ev : Event) (stdin : list string)
      (w : World) :
  ev_wait ev = None ->
  Exited (ev_status ev) = false ->
  is_trap (ev_status ev) = true ->
  RunTarget_iter fuel pid ev stdin w =
    (trap_stop fuel ev ;;;
     r <- InputOrContinue (ev_wpid ev) stdin ;;
     resume (fst r) (ev_wpid ev) (ev_resume ev) ;;;
     ret (Again, snd r))
      (mkWorld (set_Ws (dbg w) (ev_status ev)) (mem w) (trace w)).
Proof.
  intros Hwait Hex Htrap.
  unfold RunTarget_iter. unfold bind at 1 2 3. unfold get at 1, put at 1.
  cbn [dbg mem trace]. rewrite Hwait. cbn [must ret].
  unfold bind at 1, get at 1. cbn [dbg Ws set_Ws].
  rewrite Hex, Htrap. reflexivity.
Qed.

(** However the handler ends, it has not resumed the tracee; where it
    returns, the flag is clear and the saved bytes are back at [PC]. *)
Lemma trap_stop_restores (fuel : nat) (ev : Event) (base : Mem) (w : World) :
  armed base w ->
  BreakpointSet (dbg w) = true ->
  let wpid := ev_wpid ev in
  let ws := mkWorld (set_Ws (dbg w) (ev_status ev)) (mem w) (trace w) in
  match trap_stop fuel ev ws with
  | Ok _ w1 =>
      BreakpointSet (dbg w1) = false /\
      mem w1 = fst (poke_bytes (mem w) (PC (dbg w)) (OriginalCode (dbg w))) /\
      mem_eq (mem w1) base /\
      exists t,
        trace w1 =
          (trace w ++ t ++ [EPoke wpid (PC (dbg w)) (OriginalCode (dbg w))])%list
        /\ existsb resumes t = false
  | Panic w1 =>
      exists t, trace w1 = (trace w ++ t)%list /\ existsb resumes t = false
  | OutOfFuel => True
  | Exit _ | Spin _ => False
  end.
Proof.
  intros Harmed Hset wpid ws.
  assert (Hs : same_breakpoint w ws).
  { repeat split. exists []. cbn [ws trace]. now rewrite app_nil_r. }
  pose proof (trap_stop_spec fuel ev ws) as HT.
  destruct (trap_stop fuel ev ws) as [[] w1|w1|w1|w1|]; try exact HT.
  + destruct HT as (w0 & H0 & HR).
    pose proof (same_breakpoint_trans _ _ _ Hs H0) as H.
    destruct (restore_armed base wpid w0 w1
                (armed_same_breakpoint base w w0 H Harmed) HR)
      as (_ & Hclr & Hbase).
    destruct H as (E1 & E2 & E3 & E4 & E5 & t & E6 & E7).
    rewrite restore_breakpoint_eq in HR. rewrite E4, Hset in HR.
    injection HR as <-. cbn [dbg mem trace BreakpointSet set_BreakpointSet].
    rewrite E1, E2, E3, E6. repeat split; try assumption.
    * cbn [mem] in Hbase. now rewrite E1, E2, E3 in Hbase.
    * exists (t ++ [EPeek wpid (PC (dbg w)) (List.length (OriginalCode (dbg w)))])%list.
      split.
      -- now rewrite <- !app_assoc.
      -- rewrite existsb_app, E7. reflexivity.
  + destruct (same_breakpoint_trans _ _ _ Hs HT)
      as (_ & _ & _ & _ & _ & t & E6 & E7).
    now exists t.
Qed.

(** The handler does return: when the registers are read, the pc
    resolves and the stack walk returns, the saved bytes are written
    back and the flag is cleared. *)
Lemma trap_stop_returns (fuel : nat) (ev : Event) (w w3 : World)
      (file : string) (line : Z) (fn : Func) :
  BreakpointSet (dbg w) = true ->
  ev_getregs ev = None ->
  PCToLine (SymTable (dbg w)) (Rip (ev_regs ev)) = Some (file, line, fn) ->
  OutputStack fuel (ev_wpid ev) (Rip (ev_regs ev)) (Rsp (ev_regs ev))
              (Rbp (ev_regs ev))
              (mkWorld (set_Regs (set_Ws (dbg w) (ev_status ev)) (ev_regs ev))
                       (mem w)
                       (trace w ++ [EGetRegs (ev_wpid ev);
                                    EPrint (MStopped (Name fn) line file)]))
    = Ok tt w3 ->
  trap_stop fuel ev (mkWorld (set_Ws (dbg w) (ev_status ev)) (mem w) (trace w)) =
    Ok tt (mkWorld (set_BreakpointSet (dbg w3) false)
                   (fst (poke_bytes (mem w) (PC (dbg w)) (OriginalCode (dbg w))))
                   (trace w3 ++
                    [EPeek (ev_wpid ev) (PC (dbg w))
                           (List.length (OriginalCode (dbg w)));
                     EPoke (ev_wpid ev) (PC (dbg w)) (OriginalCode (dbg w))])).
Proof.
  intros Hset Hregs Hres HO.
  unfold trap_stop, bind, emit, must, get, put. cbn [dbg mem trace].
  rewrite Hregs. cbn [ret dbg mem trace Regs set_Regs SymTable set_Ws].
  rewrite Hres. unfold print, emit. cbn [dbg mem trace].
  rewrite <- app_assoc. cbn [app].
  pose proof (OutputStack_frame fuel (ev_wpid ev) (Rip (ev_regs ev))
                (Rsp (ev_regs ev)) (Rbp (ev_regs ev))
                (mkWorld (set_Regs (set_Ws (dbg w) (ev_status ev)) (ev_regs ev))
                         (mem w)
                         (trace w ++ [EGetRegs (ev_wpid ev);
                                      EPrint (MStopped (Name fn) line file)])))
    as HF.
  unfold halts_within in HF. rewrite HO in HF. rewrite HO.
  destruct HF as (fn' & t & -> & _).
  rewrite restore_breakpoint_eq. cbv zeta.
  cbn [dbg mem trace BreakpointSet PC OriginalCode set_Fn set_Regs set_Ws].
  rewrite Hset. reflexivity.
Qed.

(** An operator who answers the prompt with "c" or "s" has the tracee
    resumed at once, in the world the prompt was printed in. *)
Lemma verdict_resumes (pid : Z) (input : string) (rest : list string)
      (err : option Errno) (w : World) :
  String.eqb (ToUpper input) "C" || String.eqb (ToUpper input) "S" = true ->
  (r <- InputOrContinue pid (input :: rest) ;;
   resume (fst r) pid err ;;;
   ret (Again, snd r)) w =
  (must err ;;; ret (Again, rest))
    (log w [EPrint MPrompt;
            if String.eqb (ToUpper input) "C" then ECont pid
            else ESingleStep pid]).
Proof.
  intros Hv. unfold InputOrContinue, bind, print, emit.
  cbn [InputOrContinue_loop dbg mem trace].
  destruct (String.eqb (ToUpper input) "C").
  - unfold ret, resume, bind, emit, must, log. cbn [fst snd dbg mem trace].
    rewrite <- app_assoc. destruct err; reflexivity.
  - cbn [orb] in Hv. rewrite Hv.
    unfold ret, resume, bind, emit, must, log. cbn [fst snd dbg mem trace].
    rewrite <- app_assoc. destruct err; reflexivity.
Qed.

Lemma w_armed_is_armed : armed Examples.m0 Examples.w_armed.
Proof.
  split; [reflexivity|]. cbn [dbg Examples.w_armed Examples.d_armed BreakpointSet].
  split; [apply mem_eq_refl | reflexivity].
Qed.

(** C6.  The pass for a genuine trap with a breakpoint set.  The
    handler runs before the operator is asked and before any request
    that resumes the tracee.  (1) However the handler ends, it has not
    resumed the tracee, and it cannot leave the engine or wait for
    input; where it returns, the flag is clear and the memory is again
    the unpatched one.  (2) The handler does return whenever the
    registers are read, the pc resolves and the stack walk returns: it
    then has written [OriginalCode] back at [PC] as its last request and
    cleared [BreakpointSet], and the pass goes on to the prompt in that
    world.  (3) An operator who then answers "c" or "s" has the tracee
    resumed in that same world: with no trap in its memory and no
    breakpoint recorded, so that running through the address again does
    not trap unless a new breakpoint is requested. *)
Theorem trap_restores_before_resume (fuel : nat) (pid : Z) (ev : Event)
        (stdin : list string) (base : Mem) (w : World) :
  ev_wait ev = None ->
  Exited (ev_status ev) = false ->
  is_trap (ev_status ev) = true ->
  armed base w ->
  BreakpointSet (dbg w) = true ->
  let wpid := ev_wpid ev in
  let regs := ev_regs ev in
  let ws := mkWorld (set_Ws (dbg w) (ev_status ev)) (mem w) (trace w) in
  RunTarget_iter fuel pid ev stdin w =
    (trap_stop fuel ev ;;;
     r <- InputOrContinue wpid stdin ;;
     resume (fst r) wpid (ev_resume ev) ;;;
     ret (Again, snd r)) ws
  /\
  match trap_stop fuel ev ws with
  | Ok _ w1 =>
      BreakpointSet (dbg w1) = false /\
      mem w1 = fst (poke_bytes (mem w) (PC (dbg w)) (OriginalCode (dbg w))) /\
      mem_eq (mem w1) base /\
      exists t,
        trace w1 =
          (trace w ++ t ++ [EPoke wpid (PC (dbg w)) (OriginalCode (dbg w))])%list
        /\ existsb resumes t = false
  | Panic w1 =>
      exists t, trace w1 = (trace w ++ t)%list /\ existsb resumes t = false
  | OutOfFuel => True
  | Exit _ | Spin _ => False
  end
  /\
  forall (file : string) (line : Z) (fn : Func) (w3 : World),
    ev_getregs ev = None ->
    PCToLine (SymTable (dbg w)) (Rip regs) = Some (file, line, fn) ->
    OutputStack fuel wpid (Rip regs) (Rsp regs) (Rbp regs)
                (mkWorld (set_Regs (set_Ws (dbg w) (ev_status ev)) regs)
                         (mem w)
                         (trace w ++ [EGetRegs wpid;
                                      EPrint (MStopped (Name fn) line file)]))
      = Ok tt w3 ->
    let w1 :=
      mkWorld (set_BreakpointSet (dbg w3) false)
              (fst (poke_bytes (mem w) (PC (dbg w)) (OriginalCode (dbg w))))
              (trace w3 ++
               [EPeek wpid (PC (dbg w)) (List.length (OriginalCode (dbg w)));
                EPoke wpid (PC (dbg w)) (OriginalCode (dbg w))]) in
    trap_stop fuel ev ws = Ok tt w1 /\
    mem_eq (mem w1) base /\
    RunTarget_iter fuel pid ev stdin w =
      (r <- InputOrContinue wpid stdin ;;
       resume (fst r) wpid (ev_resume ev) ;;;
       ret (Again, snd r)) w1 /\
    forall (input : string) (rest : list string),
      stdin = input :: rest ->
      String.eqb (ToUpper input) "C" || String.eqb (ToUpper input) "S" = true ->
      RunTarget_iter fuel pid ev stdin w =
        (must (ev_resume ev) ;;; ret (Again, rest))
          (log w1 [EPrint MPrompt;
                   if String.eqb (ToUpper input) "C" then ECont wpid
                   else ESingleStep wpid]).
Proof.
  intros Hwait Hex Htrap Harmed Hset wpid regs ws.
  pose proof (trap_pass_eq fuel pid ev stdin w Hwait Hex Htrap) as Hpass.
  fold wpid ws in Hpass.
  split; [exact Hpass|].
  split; [exact (trap_stop_restores fuel ev base w Harmed Hset)|].
  intros file line fn w3 Hregs Hres HO w1.
  pose proof (trap_stop_returns fuel ev w w3 file line fn Hset Hregs Hres HO)
    as Hret.
  fold wpid ws w1 in Hret.
  assert (Hmenu : RunTarget_iter fuel pid ev stdin w =
            (r <- InputOrContinue wpid stdin ;;
             resume (fst r) wpid (ev_resume ev) ;;;
             ret (Again, snd r)) w1).
  { rewrite Hpass. unfold bind at 1. rewrite Hret. reflexivity. }
  split; [exact Hret|]. split.
  - pose proof (trap_stop_restores fuel ev base w Harmed Hset) as HR.
    cbv zeta in HR. fold ws in HR. rewrite Hret in HR.
    exact (proj1 (proj2 (proj2 HR))).
  - split; [exact Hmenu|].
    intros input rest -> Hv. rewrite Hmenu.
    exact (verdict_resumes wpid input rest (ev_resume ev) w1 Hv).
Qed.

Lemma trap_restores_before_resume_witness :
  (ev_wait Examples.ev_trap = None /\
   Exited (ev_status Examples.ev_trap) = false /\
   is_trap (ev_status Examples.ev_trap) = true /\
   armed Examples.m0 Examples.w_armed /\
   BreakpointSet (dbg Examples.w_armed) = true) /\
  let ev := Examples.ev_trap in
  let w := Examples.w_armed in
  let wpid := ev_wpid ev in
  let regs := ev_regs ev in
  let ws := mkWorld (set_Ws (dbg w) (ev_status ev)) (mem w) (trace w) in
  let w3 :=
    mkWorld (set_Fn (set_Regs (set_Ws (dbg w) (ev_status ev)) regs)
                    (Some Examples.f_main))
            (mem w)
            [EGetRegs 7; EPrint (MStopped "main.compute" 10 "a.go");
             EPeek 7 1024 24; EPrint (MCalledBy "main.main" 30);
             EPrint MNewline] in
  let w1 :=
    mkWorld (set_BreakpointSet (dbg w3) false)
            (fst (poke_bytes (mem w) (PC (dbg w)) (OriginalCode (dbg w))))
            (trace w3 ++
             [EPeek wpid (PC (dbg w)) (List.length (OriginalCode (dbg w)));
              EPoke wpid (PC (dbg w)) (OriginalCode (dbg w))]) in
  (ev_getregs ev = None /\
   PCToLine (SymTable (dbg w)) (Rip regs) =
     Some ("a.go", 10, Examples.f_compute) /\
   OutputStack 1 wpid (Rip regs) (Rsp regs) (Rbp regs)
               (mkWorld (set_Regs (set_Ws (dbg w) (ev_status ev)) regs)
                        (mem w)
                        (trace w ++
                         [EGetRegs wpid;
                          EPrint (MStopped (Name Examples.f_compute) 10 "a.go")]))
     = Ok tt w3) /\
  trap_stop 1 ev ws = Ok tt w1 /\
  mem_eq (mem w1) Examples.m0 /\
  RunTarget_iter 1 1 ev ["C"] w =
    (must (ev_resume ev) ;;; ret (Again, []))
      (log w1 [EPrint MPrompt;
               if String.eqb (ToUpper "C") "C" then ECont wpid
               else ESingleStep wpid]).
Proof.
  split.
  - repeat split; try reflexivity; apply w_armed_is_armed.
  - intros ev w wpid regs ws w3 w1.
    assert (HO : OutputStack 1 wpid (Rip regs) (Rsp regs) (Rbp regs)
                   (mkWorld (set_Regs (set_Ws (dbg w) (ev_status ev)) regs)
                            (mem w)
                            (trace w ++
                             [EGetRegs wpid;
                              EPrint (MStopped (Name Examples.f_compute) 10
                                               "a.go")]))
                 = Ok tt w3) by reflexivity.
    destruct (trap_restores_before_resume 1 1 ev ["C"] Examples.m0 w
                eq_refl eq_refl eq_refl w_armed_is_armed eq_refl)
      as (_ & _ & H).
    destruct (H "a.go" 10 Examples.f_compute w3 eq_refl eq_refl HO)
      as (H1 & H2 & _ & H4).
    split; [repeat split; exact HO|].
    split; [exact H1|]. split; [exact H2|].
    exact (H4 "C" [] eq_refl eq_refl).
Defined.

(** The same pass, computed: the trap byte at 4100 is replaced by the
    saved byte before the prompt, and [PtraceCont] comes last. *)
Lemma trap_pass_example :
  RunTarget_iter 1 1 Examples.ev_trap ["C"] Examples.w_armed =
    Ok (Again, [])
       (mkWorld
          (mkDebugger "a.go" 10 4100 (Some Examples.f_main) Examples.tbl
                      (mkRegs 4100 1024 1040) 1407 [x00] false [xcc])
          (fst (poke_bytes (mem Examples.w_armed) 4100 [x00]))
          [EGetRegs 7; EPrint (MStopped "main.compute" 10 "a.go");
           EPeek 7 1024 24; EPrint (MCalledBy "main.main" 30); EPrint MNewline;
           EPeek 7 4100 1; EPoke 7 4100 [x00];
           EPrint MPrompt; ECont 7]) /\
  fst (poke_bytes (mem Examples.w_armed) 4100 [x00]) 4100 = Some x00.
Proof. split; reflexivity. Qed.

(** ** At most one breakpoint *)

Lemma ends_within_bind {A B} (R : World -> World -> Prop)
      (m : M A) (f : A -> M B) (w : World) :
  (forall x y z, R x y -> R y z -> R x z) ->
  ends_within R m w ->
  (forall a w1, m w = Ok a w1 -> R w w1 -> ends_within R (f a) w1) ->
  ends_within R (bind m f) w.
Proof.
  intros Htrans Hm Hf. unfold ends_within, bind in *.
  destruct (m w) as [a w1| | | |] eqn:E; cbn [outcome] in *; try exact Hm.
  specialize (Hf a w1 eq_refl Hm).
  destruct (outcome (f a w1)); [eauto | exact I].
Qed.

Lemma reaches_trans (P : World -> Prop) (x y z : World) :
  reaches P x y -> reaches P y z -> reaches P x z.
Proof. unfold reaches. tauto. Qed.

(** A request made while no breakpoint is set keeps the invariant. *)
Lemma request_break_armed (base : Mem) (pid : Z) (input : string) (w : World) :
  armed base w -> BreakpointSet (dbg w) = false ->
  exists w', request_break pid input w = Ok true w' /\ armed base w'.
Proof.
  intros [HI HA] Hclr. rewrite Hclr in HA.
  rewrite request_break_eq, SetBreak_eq. cbn [dbg mem trace].
  cbn [SymTable TargetFile Line InterruptCode set_Line].
  destruct (LineToPC _ _ _) as [pc|]; eexists; (split; [reflexivity|]);
    unfold armed; cbn [dbg mem fst snd BreakpointSet InterruptCode PC
                       OriginalCode set_OriginalCode set_BreakpointSet
                       set_PC set_Line].
  - rewrite HI. split; [reflexivity|]. split.
    + now apply poke_mem_eq.
    + f_equal. now apply peek_mem_eq.
  - split; assumption.
Qed.

Lemma InputOrContinue_loop_armed (base : Mem) (pid : Z) (lines : list string) :
  forall (sub : bool) (w : World),
    armed base w -> BreakpointSet (dbg w) = false ->
    ends_within (reaches (armed base)) (InputOrContinue_loop pid sub lines) w.
Proof.
  induction lines as [|input rest IH]; intros sub w Ha Hclr;
    unfold ends_within, reaches; cbn [InputOrContinue_loop].
  - destruct sub; [|exact Ha].
    destruct (request_break_armed base pid "" w Ha Hclr) as (w' & E & Ha').
    unfold bind. rewrite E. exact Ha'.
  - destruct (String.eqb (ToUpper input) "C"); [exact Ha|].
    destruct (String.eqb (ToUpper input) "S"); [exact Ha|].
    destruct (String.eqb (ToUpper input) "B").
    { apply (IH true (log w [EPrint (MEnterLine (TargetFile (dbg w)))]));
        [exact Ha | exact Hclr]. }
    destruct (String.eqb (ToUpper input) "Q"); [exact Ha|].
    destruct sub.
    + destruct (request_break_armed base pid input w Ha Hclr) as (w' & E & Ha').
      unfold bind. rewrite E. exact Ha'.
    + apply (IH false (log (log w [EPrint (MUnexpected input)]) [EPrint MPrompt]));
        [exact Ha | exact Hclr].
Qed.

Lemma InputOrContinue_armed (base : Mem) (pid : Z) (lines : list string)
      (w : World) :
  armed base w -> BreakpointSet (dbg w) = false ->
  ends_within (reaches (armed base)) (InputOrContinue pid lines) w.
Proof.
  intros Ha Hclr.
  apply (InputOrContinue_loop_armed base pid lines false (log w [EPrint MPrompt]));
    [exact Ha | exact Hclr].
Qed.

Lemma resume_armed (base : Mem) (v : bool) (wpid : Z) (err : option Errno)
      (w : World) :
  armed base w -> ends_within (reaches (armed base)) (resume v wpid err) w.
Proof.
  intros Ha. unfold ends_within, reaches, resume.
  destruct v, err; exact Ha.
Qed.

(** Menu and resume, started with no breakpoint set. *)
Lemma ask_and_resume_armed {A} (base : Mem) (wpid : Z) (stdin : list string)
      (err : option Errno) (k : list string -> A) (w : World) :
  armed base w -> BreakpointSet (dbg w) = false ->
  ends_within (reaches (armed base))
    (r <- InputOrContinue wpid stdin ;;
     resume (fst r) wpid err ;;; ret (k (snd r))) w.
Proof.
  intros Ha Hclr.
  apply ends_within_bind; [apply reaches_trans | |].
  - now apply InputOrContinue_armed.
  - intros r w1 _ Ha1.
    apply ends_within_bind; [apply reaches_trans | |].
    + now apply resume_armed.
    + intros _ w2 _ Ha2. exact Ha2.
Qed.

Lemma RunTarget_iter_armed (base : Mem) (fuel : nat) (pid : Z) (ev : Event)
      (stdin : list string) (w : World) :
  armed base w ->
  ends_within (reaches (armed base)) (RunTarget_iter fuel pid ev stdin) w.
Proof.
  intros Ha.
  set (ws := mkWorld (set_Ws (dbg w)
                             (match ev_wait ev with
                              | None => ev_status ev | Some _ => 0 end))
                     (mem w) (trace w)).
  assert (Hs : armed base ws) by exact Ha.
  assert (Htrap : ends_within (reaches (armed base))
            (trap_stop fuel ev ;;;
             r <- InputOrContinue (ev_wpid ev) stdin ;;
             resume (fst r) (ev_wpid ev) (ev_resume ev) ;;;
             ret (Again, snd r)) ws).
  { apply ends_within_bind; [apply reaches_trans | |].
    - pose proof (trap_stop_spec fuel ev ws) as HT.
      unfold ends_within, reaches.
      destruct (trap_stop fuel ev ws) as [[] w1|w1|w1|w1|];
        cbn [outcome]; try contradiction; [| |exact I].
      + destruct HT as (w0 & H0 & HR).
        apply (restore_armed base (ev_wpid ev) w0 w1); [|exact HR].
        now apply (armed_same_breakpoint base ws).
      + now apply (armed_same_breakpoint base ws).
    - intros [] w1 E _.
      pose proof (trap_stop_spec fuel ev ws) as HT. rewrite E in HT.
      destruct HT as (w0 & H0 & HR).
      destruct (restore_armed base (ev_wpid ev) w0 w1
                  (armed_same_breakpoint base ws w0 H0 Hs) HR)
        as (Ha1 & Hclr & _).
      now apply ask_and_resume_armed. }
  assert (Hother : ends_within (reaches (armed base))
            (emit (ECont (ev_wpid ev)) ;;;
             must (ev_resume ev) ;;;
             ret (Again, stdin)) ws).
  { unfold ends_within, reaches, bind, emit, must.
    destruct (ev_resume ev); exact Hs. }
  unfold ends_within, reaches in *.
  unfold RunTarget_iter. unfold bind at 1 2 3. unfold get at 1, put at 1.
  cbn [dbg mem trace]. fold ws.
  destruct (ev_wait ev); [exact Hs|].
  cbn [must ret]. unfold bind at 1, get at 1.
  destruct (Exited (Ws (dbg ws))).
  { destruct (ev_wpid ev =? pid); exact Hs. }
  destruct (is_trap (Ws (dbg ws))); assumption.
Qed.

Lemma RunTarget_loop_armed (base : Mem) (fuel : nat) (pid : Z)
      (evs : list Event) :
  forall (stdin : list string) (w : World),
    armed base w ->
    ends_within (reaches (armed base)) (RunTarget_loop fuel pid evs stdin) w.
Proof.
  induction evs as [|ev evs IH]; intros stdin w Ha; cbn [RunTarget_loop].
  - exact Ha.
  - apply ends_within_bind; [apply reaches_trans | |].
    + now apply RunTarget_iter_armed.
    + intros [[|] rest] w1 _ Ha1; cbn [fst snd]; [exact Ha1 | now apply IH].
Qed.

Lemma RunTarget_start_eq (s : Spawn) (stdin : list string) (w : World) :
  let w1 := log (if sp_wait_err s then log w [EPrint MWaitReturned] else w)
                [ESetOptions (sp_pid s)] in
  RunTarget_start s stdin w =
    match sp_setoptions s with
    | Some _ => Panic w1
    | None =>
        (r <- InputOrContinue (sp_pid s) stdin ;;
         resume (fst r) (sp_pid s) (sp_resume s) ;;;
         ret (snd r)) w1
    end.
Proof.
  unfold RunTarget_start.
  destruct (sp_wait_err s), (sp_setoptions s); reflexivity.
Qed.

Lemma RunTarget_armed (base : Mem) (fuel : nat) (s : Spawn)
      (evs : list Event) (stdin : list string) (w : World) :
  armed base w -> BreakpointSet (dbg w) = false ->
  ends_within (reaches (armed base)) (RunTarget fuel s evs stdin) w.
Proof.
  intros Ha Hclr. unfold RunTarget.
  apply ends_within_bind; [apply reaches_trans | |].
  - unfold ends_within. rewrite RunTarget_start_eq. cbv zeta.
    set (w1 := log _ _).
    assert (Ha1 : armed base w1 /\ BreakpointSet (dbg w1) = false).
    { unfold w1. destruct (sp_wait_err s); split; assumption. }
    destruct (sp_setoptions s); [exact (proj1 Ha1)|].
    apply (ask_and_resume_armed base (sp_pid s) stdin (sp_resume s)
             (fun l => l) w1); apply Ha1.
  - intros stdin' w1 _ Ha1. now apply RunTarget_loop_armed.
Qed.

Lemma Run_armed (base : Mem) (fuel : nat) (tbl : Table) (s : Spawn)
      (evs : list Event) (stdin : list string) :
  ends_within (reaches (armed base)) (Run fuel s evs stdin) (initial tbl base).
Proof.
  assert (H0 : armed base (initial tbl base)).
  { split; [reflexivity | apply mem_eq_refl]. }
  unfold ends_within.
  unfold Run, bind at 1, get at 1. cbn [dbg initial NewDebugger SymTable].
  destruct (LookupFunc tbl "main.main") as [f|]; [|exact H0].
  destruct (PCToLine tbl (Entry f)) as [[[file line] fn]|];
    unfold bind at 1, put at 1;
    match goal with |- context [RunTarget fuel s evs stdin ?w1] =>
      assert (Ha : armed base w1)
        by (split; [reflexivity | exact (mem_eq_refl base)]);
      exact (RunTarget_armed base fuel s evs stdin w1 Ha eq_refl)
    end.
Qed.

(** At a trap stop the handler leaves no breakpoint behind: when it
    reaches the prompt the flag is clear and the memory is unpatched. *)
Lemma trap_stop_clears (base : Mem) (fuel : nat) (ev : Event) (w : World) :
  armed base w ->
  match trap_stop fuel ev w with
  | Ok _ w1 => BreakpointSet (dbg w1) = false /\ mem_eq (mem w1) base
  | _ => True
  end.
Proof.
  intros Ha. pose proof (trap_stop_spec fuel ev w) as HT.
  destruct (trap_stop fuel ev w) as [[] w1|w1|w1|w1|]; try exact I.
  destruct HT as (w0 & H0 & HR).
  apply (restore_armed base (ev_wpid ev) w0 w1); [|exact HR].
  now apply (armed_same_breakpoint base w).
Qed.

(** C1, as amended.  In every world a run of the control loop can reach
    from a fresh session, the breakpoint is in order: either none is set
    and the tracee's memory is the unpatched one, or one is set and the
    memory differs from the unpatched one in the single byte at [PC],
    whose original is saved; so no two traps are ever installed.  And
    whenever the operator is asked at a trap stop, the prior trap has
    been cleared first: the flag is clear and the memory unpatched, so
    a new trap is only ever written over unpatched memory. *)
Theorem single_breakpoint_in_runs (base : Mem) (fuel : nat) (tbl : Table)
        (s : Spawn) (evs : list Event) (stdin : list string) :
  ends_within
    (reaches (fun w' =>
       armed base w' /\
       (BreakpointSet (dbg w') = false -> mem_eq (mem w') base) /\
       ~ two_traps base (mem w')))
    (Run fuel s evs stdin) (initial tbl base)
  /\
  forall (ev : Event) (w : World),
    armed base w ->
    match trap_stop fuel ev w with
    | Ok _ w1 => BreakpointSet (dbg w1) = false /\ mem_eq (mem w1) base
    | _ => True
    end.
Proof.
  split; [|intros ev w; apply trap_stop_clears].
  pose proof (Run_armed base fuel tbl s evs stdin) as H.
  unfold ends_within, reaches in *.
  destruct (outcome _) as [w'|]; [|exact I].
  split; [exact H|]. split.
  - intros Hclr. destruct H as [_ H]. now rewrite Hclr in H.
  - intros (a1 & a2 & Hne & M1 & B1 & M2 & B2).
    assert (N1 : mem w' a1 <> base a1) by congruence.
    assert (N2 : mem w' a2 <> base a2) by congruence.
    destruct (armed_one_patch base w' a1 H N1) as [_ E1].
    destruct (armed_one_patch base w' a2 H N2) as [_ E2].
    congruence.
Qed.

(** C1 as stated fails for [SetBreak] and the menu taken by themselves:
    neither looks at [BreakpointSet].  From the session with the trap
    of line 10 at 4100, a request for line 20 is served (not rejected),
    the trap at 4100 stays, and a second one is written at 4200. *)
Lemma second_SetBreak_leaves_two_traps :
  InputOrContinue 7 ["B"; "10"] Examples.w0 =
    Ok (true, [])
       (mkWorld Examples.d_armed (mem Examples.w_armed)
                [EPrint MPrompt; EPrint (MEnterLine "a.go");
                 EPeek 7 4100 1; EPoke 7 4100 [xcc]]) /\
  BreakpointSet (dbg Examples.w_armed) = true /\
  InputOrContinue 7 ["B"; "20"] Examples.w_armed =
    Ok (true, [])
       (mkWorld (mkDebugger "a.go" 20 4200 (Some Examples.f_compute)
                            Examples.tbl (mkRegs 0 0 0) 0 [x00] true [xcc])
                (fst (poke_bytes (mem Examples.w_armed) 4200 [xcc]))
                [EPrint MPrompt; EPrint (MEnterLine "a.go");
                 EPeek 7 4200 1; EPoke 7 4200 [xcc]]) /\
  two_traps Examples.m0 (fst (poke_bytes (mem Examples.w_armed) 4200 [xcc])).
Proof.
  split; [reflexivity|]. split; [reflexivity|]. split; [reflexivity|].
  exists 4100, 4200.
  split; [discriminate|]. split; [reflexivity|]. split; [discriminate|].
  split; [reflexivity | discriminate].
Qed.

(** In the control loop the same two requests go through a trap stop:
    the byte at 4100 is put back before the trap at 4200 is written. *)
Lemma rearm_in_the_loop :
  Run 1 (mkSpawn 7 false None None) [Examples.ev_trap]
      ["B"; "10"; "B"; "20"] (initial Examples.tbl Examples.m0) =
    Ok (Again, [])
       (mkWorld
          (mkDebugger "a.go" 20 4200 (Some Examples.f_main) Examples.tbl
                      (mkRegs 4100 1024 1040) 1407 [x00] true [xcc])
          (fst (poke_bytes
                  (fst (poke_bytes (mem Examples.w_armed) 4100 [x00]))
                  4200 [xcc]))
          [ESetOptions 7; EPrint MPrompt; EPrint (MEnterLine "a.go");
           EPeek 7 4100 1; EPoke 7 4100 [xcc]; ECont 7;
           EGetRegs 7; EPrint (MStopped "main.compute" 10 "a.go");
           EPeek 7 1024 24; EPrint (MCalledBy "main.main" 30); EPrint MNewline;
           EPeek 7 4100 1; EPoke 7 4100 [x00];
           EPrint MPrompt; EPrint (MEnterLine "a.go");
           EPeek 7 4200 1; EPoke 7 4200 [xcc]; ECont 7]) /\
  fst (poke_bytes (fst (poke_bytes (mem Examples.w_armed) 4100 [x00]))
                  4200 [xcc]) 4100 = Some x00 /\
  fst (poke_bytes (fst (poke_bytes (mem Examples.w_armed) 4100 [x00]))
                  4200 [xcc]) 4200 = Some xcc.
Proof. repeat split. Qed.

(** ** How long the stack walk can go on *)

Lemma peek_bytes_length (m : Mem) (out : list byte) (addr : Z) :
  List.length (fst (peek_bytes m addr out)) = List.length out.
Proof.
  revert addr. induction out as [|o out IH]; intros addr; cbn [peek_bytes].
  - reflexivity.
  - destruct (m (u64 addr)); [|reflexivity].
    specialize (IH (addr + 1)).
    destruct (peek_bytes m (addr + 1) out). cbn [fst List.length] in *.
    now rewrite IH.
Qed.




(** The inner loop never uses up the length of the buffer as fuel, and
    it leaves [i] within the buffer. *)
Lemma scan_frame_bounds (fuel : nat) (b : list byte) (sp bp : Z) (w : World) :
  forall i nextbp,
    8 <= i <= Z.of_nat (List.length b) ->
    Z.of_nat (List.length b) - i < 8 * Z.of_nat fuel + 8 ->
    match scan_frame fuel b sp bp i nextbp w with
    | Ok ib w' => w' = w /\ i <= fst ib <= Z.of_nat (List.length b)
    | Panic w' => w' = w
    | Exit _ | Spin _ | OutOfFuel => False
    end.
Proof.
  induction fuel as [|fuel IH]; intros i nextbp Hi Hfuel; cbn [scan_frame];
    (destruct (u64 (sp + i) <=? bp); [|cbn; split; [reflexivity | lia]]);
    unfold slice8;
    (destruct ((0 <=? i) && (i + 8 <=? Z.of_nat (List.length b))) eqn:Hs;
     [|reflexivity]);
    apply andb_prop in Hs as [_ Hs]; apply Z.leb_le in Hs.
  - lia.
  - match goal with |- context [scan_frame fuel b sp bp (i + 8) ?nb w] =>
      specialize (IH (i + 8) nb ltac:(lia) ltac:(lia));
      destruct (scan_frame fuel b sp bp (i + 8) nb w) as [ib w'| | | |] end;
      try exact IH.
    destruct IH as [-> IH]. split; [reflexivity | lia].
Qed.

(** The budget of the inner loop is never what ends a pass. *)
Lemma read_frame_inner_fuel (pid sp frameSize bp nextbp : Z) (w : World) :
  read_frame pid sp frameSize bp nextbp w <> OutOfFuel.
Proof.
  unfold read_frame, bind, PtracePeekData, panic, get.
  cbn [mem dbg trace snd fst].
  destruct (peek_bytes (mem w) sp (repeat x00 (Z.to_nat frameSize)))
    as [b e]. cbn [fst snd].
  destruct e; [discriminate|].
  unfold slice8 at 1.
  destruct ((0 <=? 0) && (0 + 8 <=? Z.of_nat (List.length b))) eqn:Hs;
    [|discriminate].
  apply andb_prop in Hs as [_ Hs]. apply Z.leb_le in Hs.
  match goal with |- context [scan_frame _ _ _ _ _ _] =>
    match goal with |- match ?pre ?w0 with _ => _ end <> _ =>
      destruct (pre w0) as [[] w1|w1|w1|w1|] eqn:Epre; try discriminate
    end
  end.
  - pose proof (scan_frame_bounds (List.length b) b sp bp w1 8 nextbp
                  ltac:(lia) ltac:(lia)) as Hsc.
    destruct (scan_frame (List.length b) b sp bp 8 nextbp w1)
      as [ib w'|w'|w'|w'|]; try contradiction; [|discriminate].
    destruct (Fn (dbg w')); [|discriminate].
    destruct (String.eqb (Name f) "main.main"
              || String.eqb (Name f) "runtime.main"); discriminate.
  - exfalso. revert Epre. unfold put, print, emit, ret.
    destruct (PCToLine _ _) as [[[? ?] ?]|]; discriminate.
Qed.

Section UnmappedAddress.

Variable u : Z.



End UnmappedAddress.




(** *** Why the unmapped address is needed *)

Lemma peek_full (out : list byte) (addr : Z) :
  peek_bytes Examples.m_full addr out = (repeat x00 (List.length out), None).
Proof.
  revert addr. induction out as [|o out IH]; intros addr; cbn [peek_bytes].
  - reflexivity.
  - unfold Examples.m_full at 1. rewrite IH. reflexivity.
Qed.

Lemma scan_frame_go (fuel : nat) (b s : list byte) (sp bp i nextbp : Z)
      (w : World) :
  u64 (sp + i) <= bp ->
  slice8 b i = Some s ->
  scan_frame (S fuel) b sp bp i nextbp w =
    scan_frame fuel b sp bp (i + 8)
               (if u64 (sp + i) =? bp then Uint64 s else nextbp) w.
Proof.
  intros Hle Hs. cbn [scan_frame].
  apply Z.leb_le in Hle. now rewrite Hle, Hs.
Qed.

Lemma scan_frame_stop (fuel : nat) (b : list byte) (sp bp i nextbp : Z)
      (w : World) :
  bp < u64 (sp + i) ->
  scan_frame fuel b sp bp i nextbp w = Ok (i, nextbp) w.
Proof.
  intros Hlt. apply Z.leb_gt in Hlt.
  destruct fuel; cbn [scan_frame]; now rewrite Hlt.
Qed.

(** On a zeroed 32-byte frame whose [sp] is 24 modulo 32 the inner loop
    reads three words and stops at [i = 32], also where [sp + 24] wraps
    around the top of the address space. *)
Lemma scan_zero_frame (sp : Z) (w : World) :
  0 <= sp < two64 -> sp mod 32 = 24 ->
  scan_frame 32 (repeat x00 32) sp (u64 (sp + 32 - 8)) 8 0 w = Ok (32, 0) w.
Proof.
  intros Hr Hm.
  pose proof (Z.div_mod sp 32 ltac:(lia)) as Hq. rewrite Hm in Hq.
  rewrite two64_val in Hr.
  destruct (Z_lt_le_dec (sp + 32) two64) as [Hlt|Hge]; rewrite two64_val in *.
  - assert (Hz : forall c : bool, (if c then Uint64 (repeat x00 8) else 0) = 0)
      by (intros []; reflexivity).
    rewrite (u64_small (sp + 32 - 8)) by (rewrite two64_val; lia).
    rewrite (scan_frame_go 31 _ (repeat x00 8)); cycle 1.
    { rewrite u64_small by (rewrite two64_val; lia). lia. }
    { reflexivity. }
    rewrite Hz. change (8 + 8) with 16.
    rewrite (scan_frame_go 30 _ (repeat x00 8)); cycle 1.
    { rewrite u64_small by (rewrite two64_val; lia). lia. }
    { reflexivity. }
    rewrite Hz. change (16 + 8) with 24.
    rewrite (scan_frame_go 29 _ (repeat x00 8)); cycle 1.
    { rewrite u64_small by (rewrite two64_val; lia). lia. }
    { reflexivity. }
    rewrite Hz. change (24 + 8) with 32.
    apply scan_frame_stop.
    rewrite u64_small by (rewrite two64_val; lia). lia.
  - assert (sp = 18446744073709551608) as -> by lia.
    vm_compute. reflexivity.
Qed.

Lemma OutputStack_iter_full (sp : Z) (t : list Effect) :
  0 <= sp < two64 -> sp mod 32 = 24 ->
  OutputStack_iter 7 sp 0 0 (mkWorld Examples.d0 Examples.m_full t) =
    Ok (Next (u64 (sp + 32)) 0)
       (mkWorld Examples.d0 Examples.m_full
                (t ++ [EPrint (MStrange sp 0); EPeek 7 sp 32])).
Proof.
  intros Hr Hm.
  unfold OutputStack_iter, frame_adjust. rewrite orb_true_r.
  unfold bind at 1 2. cbn [print emit ret fst snd dbg mem trace].
  unfold read_frame. unfold bind at 1. unfold PtracePeekData at 1.
  cbn [mem dbg trace]. rewrite peek_full. cbn [fst snd].
  change (Z.to_nat 32) with 32%nat. rewrite !repeat_length.
  change (slice8 (repeat x00 32) 0) with (Some (repeat x00 8)). cbv iota.
  unfold bind at 1, get at 1. cbn [dbg].
  change (PCToLine (SymTable Examples.d0) (Uint64 (repeat x00 8)))
    with (@None (string * Z * Func)). cbv iota.
  unfold bind at 1, ret at 1. unfold bind at 1.
  rewrite (scan_zero_frame sp _ Hr Hm).
  unfold bind, get. cbn [dbg fst snd].
  rewrite <- app_assoc. reflexivity.
Qed.

Lemma OutputStack_loop_full (fuel : nat) :
  forall (sp : Z) (t : list Effect),
    0 <= sp < two64 -> sp mod 32 = 24 ->
    OutputStack_loop fuel 7 sp 0 0 (mkWorld Examples.d0 Examples.m_full t) =
      OutOfFuel.
Proof.
  induction fuel as [|fuel IH]; intros sp t Hr Hm; [reflexivity|].
  cbn [OutputStack_loop]. unfold bind.
  rewrite (OutputStack_iter_full sp t Hr Hm).
  apply IH; [apply u64_range|].
  pose proof (Z.div_mod sp 32 ltac:(lia)) as Hq. rewrite Hm in Hq.
  destruct (Z_lt_le_dec (sp + 32) two64) as [Hlt|Hge].
  - rewrite u64_small by lia.
    replace (sp + 32) with (sp + 1 * 32) by lia.
    now rewrite Z.mod_add by lia.
  - rewrite two64_val in *.
    assert (sp = 18446744073709551608) as -> by lia. reflexivity.
Qed.

(** The bound comes from the address space, not from the loop, which
    has no counter of its own.  In a memory in which every one of the
    2^64 addresses is mapped and holds zero, which no tracee has, a call
    with [sp = 0x7ffc0018] and [bp = 0] at a stop in [main.compute]
    takes the fallback in every pass and never reaches a sentinel, a
    failed read or a short frame: no budget of passes is enough for it
    to end. *)
Lemma walk_never_ends_on_full_memory :
  ~ exists fuel : nat,
      OutputStack fuel 7 4100 2147221528 0 Examples.w_full <> OutOfFuel.
Proof.
  intros [fuel H]. apply H.
  unfold OutputStack, bind, get, put.
  change (mkWorld _ (mem Examples.w_full) (trace Examples.w_full))
    with (mkWorld Examples.d0 Examples.m_full []).
  rewrite OutputStack_loop_full; [reflexivity | | reflexivity].
  rewrite two64_val. lia.
Qed.

(* ================================================================== *)
(** * Further properties of the engine *)

(** ** [ReplaceCode]: writing and putting back *)

Lemma u64_next_distinct (addr k : Z) :
  0 <= k < two64 - 1 -> u64 (addr + 1 + k) <> u64 addr.
Proof.
  intros Hk E. unfold u64 in E.
  assert (H : (addr + 1 + k - addr) mod two64 = 0).
  { rewrite Zminus_mod, E, Z.sub_diag. reflexivity. }
  replace (addr + 1 + k - addr) with (1 + k) in H by lia.
  rewrite Z.mod_small in H by lia. lia.
Qed.

(** A write leaves alone every address outside its range. *)
Lemma poke_bytes_other (data : list byte) (m : Mem) (addr x : Z) :
  (forall k, 0 <= k < Z.of_nat (List.length data) -> u64 (addr + k) <> x) ->
  fst (poke_bytes m addr data) x = m x.
Proof.
  revert m addr. induction data as [|b data IH]; intros m addr H;
    cbn [poke_bytes List.length] in *; [reflexivity|].
  destruct (m (u64 addr)) eqn:E; [|reflexivity].
  rewrite IH.
  - unfold upd. destruct (x =? u64 addr) eqn:Ex; [|reflexivity].
    apply Z.eqb_eq in Ex. exfalso. apply (H 0); [lia|].
    now rewrite Z.add_0_r.
  - intros k Hk. replace (addr + 1 + k) with (addr + (k + 1)) by lia.
    apply H. lia.
Qed.

Lemma upd_upd_commute (m : Mem) (a a' : Z) (b b' : byte) :
  a <> a' -> mem_eq (upd (upd m a' b') a b) (upd (upd m a b) a' b').
Proof.
  intros Hne x. unfold upd.
  destruct (x =? a) eqn:E1, (x =? a') eqn:E2; try reflexivity.
  apply Z.eqb_eq in E1, E2. congruence.
Qed.

Lemma upd_poke_commute (data : list byte) (m : Mem) (addr a : Z) (b : byte) :
  (forall k, 0 <= k < Z.of_nat (List.length data) -> u64 (addr + k) <> a) ->
  mem_eq (upd (fst (poke_bytes m addr data)) a b)
         (fst (poke_bytes (upd m a b) addr data)).
Proof.
  revert m addr. induction data as [|b' data IH]; intros m addr H;
    cbn [poke_bytes List.length] in *; [apply mem_eq_refl|].
  assert (Hne : u64 addr <> a).
  { specialize (H 0 ltac:(lia)). now rewrite Z.add_0_r in H. }
  assert (Hd : upd m a b (u64 addr) = m (u64 addr)).
  { unfold upd. apply Z.eqb_neq in Hne. now rewrite Hne. }
  rewrite Hd. destruct (m (u64 addr)); [|apply mem_eq_refl].
  eapply mem_eq_trans.
  - apply IH. intros k Hk.
    replace (addr + 1 + k) with (addr + (k + 1)) by lia. apply H. lia.
  - apply poke_mem_eq. apply upd_upd_commute. congruence.
Qed.

Lemma upd_same (m : Mem) (a : Z) (b b0 : byte) :
  m a = Some b0 -> mem_eq (upd (upd m a b) a b0) m.
Proof.
  intros H x. unfold upd. destruct (x =? a) eqn:E; [|reflexivity].
  apply Z.eqb_eq in E. now subst.
Qed.

(** Writing [code] and then writing back what a read of the same range
    returned gives the memory one started from, also when part of the
    range cannot be accessed. *)
Lemma poke_restore (code : list byte) :
  forall (m : Mem) (addr : Z),
    Z.of_nat (List.length code) <= two64 ->
    mem_eq (fst (poke_bytes (fst (poke_bytes m addr code)) addr
                            (fst (peek_bytes m addr
                                    (repeat x00 (List.length code))))))
           m.
Proof.
  induction code as [|b code IH]; intros m addr Hlen;
    cbn [List.length repeat peek_bytes poke_bytes] in *.
  - apply mem_eq_refl.
  - destruct (m (u64 addr)) as [b0|] eqn:E.
    + assert (Hd : forall k, 0 <= k < Z.of_nat (List.length code) ->
                             u64 (addr + 1 + k) <> u64 addr).
      { intros k Hk. apply u64_next_distinct. lia. }
      destruct (peek_bytes m (addr + 1) (repeat x00 (List.length code)))
        as [r e] eqn:Er.
      cbn [fst poke_bytes].
      rewrite (poke_bytes_other code (upd m (u64 addr) b) (addr + 1) _ Hd).
      unfold upd at 1. rewrite Z.eqb_refl.
      eapply mem_eq_trans.
      { apply poke_mem_eq. eapply mem_eq_trans.
        - apply (upd_poke_commute code _ (addr + 1) (u64 addr) b0 Hd).
        - apply poke_mem_eq. now apply upd_same. }
      specialize (IH m (addr + 1) ltac:(lia)). rewrite Er in IH. exact IH.
    + cbn [fst poke_bytes]. rewrite E. apply mem_eq_refl.
Qed.

(** After a write that succeeded, a read of the range returns what was
    written. *)
Lemma peek_after_poke (code : list byte) :
  forall (m : Mem) (addr : Z) (out : list byte),
    Z.of_nat (List.length code) <= two64 ->
    List.length out = List.length code ->
    snd (poke_bytes m addr code) = None ->
    peek_bytes (fst (poke_bytes m addr code)) addr out = (code, None).
Proof.
  induction code as [|b code IH]; intros m addr out Hlen Hout Hok;
    destruct out as [|o out]; try discriminate;
    cbn [List.length peek_bytes poke_bytes] in *; [reflexivity|].
  destruct (m (u64 addr)) as [b0|] eqn:E; [|discriminate].
  rewrite (poke_bytes_other code (upd m (u64 addr) b) (addr + 1)).
  - unfold upd at 1. rewrite Z.eqb_refl.
    rewrite (IH (upd m (u64 addr) b) (addr + 1) out); try lia; [reflexivity|].
    exact Hok.
  - intros k Hk. apply u64_next_distinct. lia.
Qed.

(** X1.  Round trip of [ReplaceCode]: a call that writes [code] at an
    address, followed by a call that writes the bytes the first call
    returned at the same address, leaves the tracee's memory as it was
    before the first call, and never touches the struct. *)
Theorem ReplaceCode_round_trip (pid pid' addr : Z) (code : list byte)
        (w : World) :
  Z.of_nat (List.length code) <= two64 ->
  match ReplaceCode pid addr code w with
  | Ok original w1 =>
      match ReplaceCode pid' addr original w1 with
      | Ok _ w2 => mem_eq (mem w2) (mem w) /\ dbg w2 = dbg w
      | _ => False
      end
  | _ => False
  end.
Proof.
  intros Hlen. rewrite ReplaceCode_eq. cbv iota beta.
  rewrite ReplaceCode_eq. cbn [mem dbg].
  split; [|reflexivity].
  now apply poke_restore.
Qed.

Lemma ReplaceCode_round_trip_witness :
  Z.of_nat (List.length [xcc; x90]) <= two64 /\
  match ReplaceCode 7 4100 [xcc; x90] Examples.w0 with
  | Ok original w1 =>
      match ReplaceCode 8 4100 original w1 with
      | Ok _ w2 => mem_eq (mem w2) (mem Examples.w0) /\ dbg w2 = dbg Examples.w0
      | _ => False
      end
  | _ => False
  end.
Proof.
  assert (H : Z.of_nat (List.length [xcc; x90]) <= two64)
    by (rewrite two64_val; cbn; lia).
  split; [exact H|].
  exact (ReplaceCode_round_trip 7 8 4100 [xcc; x90] Examples.w0 H).
Defined.

(** X2.  When every byte of the range can be written, the second call of
    such a pair returns the bytes the first call wrote: restoring a
    breakpoint hands back the trap instruction. *)
Theorem ReplaceCode_returns_written (pid pid' addr : Z) (code : list byte)
        (w : World) :
  Z.of_nat (List.length code) <= two64 ->
  snd (poke_bytes (mem w) addr code) = None ->
  match ReplaceCode pid addr code w with
  | Ok original w1 =>
      List.length original = List.length code /\
      match ReplaceCode pid' addr original w1 with
      | Ok again _ => again = code
      | _ => False
      end
  | _ => False
  end.
Proof.
  intros Hlen Hok. rewrite ReplaceCode_eq. cbv iota beta.
  split; [now rewrite peek_bytes_length, repeat_length|].
  rewrite ReplaceCode_eq. cbn [mem].
  rewrite peek_after_poke; [reflexivity | exact Hlen | | exact Hok].
  now rewrite repeat_length, peek_bytes_length, repeat_length.
Qed.

Lemma ReplaceCode_returns_written_witness :
  (Z.of_nat (List.length [xcc]) <= two64 /\
   snd (poke_bytes (mem Examples.w0) 4100 [xcc]) = None) /\
  match ReplaceCode 7 4100 [xcc] Examples.w0 with
  | Ok original w1 =>
      List.length original = List.length [xcc] /\
      match ReplaceCode 8 4100 original w1 with
      | Ok again _ => again = [xcc]
      | _ => False
      end
  | _ => False
  end.
Proof.
  assert (H : Z.of_nat (List.length [xcc]) <= two64)
    by (rewrite two64_val; cbn; lia).
  split; [split; [exact H | reflexivity]|].
  exact (ReplaceCode_returns_written 7 8 4100 [xcc] Examples.w0 H eq_refl).
Defined.

(** ** The menu *)

Lemma log_log (w : World) (a b : list Effect) :
  log (log w a) b = log w (a ++ b).
Proof. unfold log. cbn [dbg mem trace]. now rewrite app_assoc. Qed.

Lemma log_nil (w : World) : log w [] = w.
Proof. destruct w. unfold log. cbn. now rewrite app_nil_r. Qed.

(** Lines that are no menu letter are answered and skipped. *)
Lemma InputOrContinue_loop_skips (pid : Z) (junk rest : list string) :
  forall w : World,
    no_command junk = true ->
    InputOrContinue_loop pid false (junk ++ rest) w =
      InputOrContinue_loop pid false rest (log w (unexpected junk)).
Proof.
  induction junk as [|j junk IH]; intros w H.
  - cbn [app unexpected flat_map]. now rewrite log_nil.
  - cbn [no_command forallb] in H. apply andb_prop in H as [Hj H].
    apply negb_true_iff in Hj.
    rewrite <- app_comm_cons, (default_arm pid false j _ Hj).
    change ((print (MUnexpected j) ;;; print MPrompt ;;;
             InputOrContinue_loop pid false (junk ++ rest)) w)
      with (InputOrContinue_loop pid false (junk ++ rest)
              (log (log w [EPrint (MUnexpected j)]) [EPrint MPrompt])).
    rewrite (IH _ H), !log_log. reflexivity.
Qed.

(** X3.  Lines that are not menu letters, entered before any "B", are
    each answered by "Unexpected input" and a new prompt and change
    nothing else: the call goes on with the remaining lines exactly as
    if it had started there. *)
Theorem InputOrContinue_skips_junk (pid : Z) (junk rest : list string)
        (w : World) :
  no_command junk = true ->
  InputOrContinue pid (junk ++ rest) w =
    InputOrContinue_loop pid false rest
      (log w (EPrint MPrompt :: unexpected junk)).
Proof.
  intros H. unfold InputOrContinue.
  change ((print MPrompt ;;; InputOrContinue_loop pid false (junk ++ rest)) w)
    with (InputOrContinue_loop pid false (junk ++ rest) (log w [EPrint MPrompt])).
  now rewrite (InputOrContinue_loop_skips pid junk rest _ H), log_log.
Qed.

Lemma InputOrContinue_skips_junk_witness :
  no_command ["x"; ""; "12"] = true /\
  InputOrContinue 7 (["x"; ""; "12"] ++ ["s"]) Examples.w0 =
    InputOrContinue_loop 7 false ["s"]
      (log Examples.w0 (EPrint MPrompt :: unexpected ["x"; ""; "12"])).
Proof.
  split; [reflexivity|].
  exact (InputOrContinue_skips_junk 7 ["x"; ""; "12"] ["s"] Examples.w0 eq_refl).
Defined.

(** X4.  End of input.  When the input ends before any menu letter was
    entered, [InputOrContinue] never returns: it prints "Unexpected
    input" and the prompt for ever, and the struct and the tracee stay
    as they were. *)
Theorem InputOrContinue_spins_at_end_of_input (pid : Z) (lines : list string)
        (w : World) :
  no_command lines = true ->
  InputOrContinue pid lines w =
    Spin (log w (EPrint MPrompt :: unexpected lines)).
Proof.
  intros H. unfold InputOrContinue.
  change ((print MPrompt ;;; InputOrContinue_loop pid false lines) w)
    with (InputOrContinue_loop pid false lines (log w [EPrint MPrompt])).
  rewrite <- (app_nil_r lines) at 1.
  now rewrite (InputOrContinue_loop_skips pid lines [] _ H), log_log.
Qed.

Lemma InputOrContinue_spins_at_end_of_input_witness :
  no_command ["go"] = true /\
  InputOrContinue 7 ["go"] Examples.w0 =
    Spin (log Examples.w0 (EPrint MPrompt :: unexpected ["go"])).
Proof.
  split; [reflexivity|].
  exact (InputOrContinue_spins_at_end_of_input 7 ["go"] Examples.w0 eq_refl).
Defined.

Lemma menu_keeps_refl (w : World) : menu_keeps w w.
Proof.
  repeat split. exists []. rewrite app_nil_r.
  repeat split. intros ? ? ? [].
Qed.

Lemma menu_keeps_trans (x y z : World) :
  menu_keeps x y -> menu_keeps y z -> menu_keeps x z.
Proof.
  intros (A1 & A2 & A3 & A4 & A5 & A6 & t1 & At & Am & Ap)
         (B1 & B2 & B3 & B4 & B5 & B6 & t2 & Bt & Bm & Bp).
  repeat split; try congruence.
  exists (t1 ++ t2)%list. split; [|split].
  - rewrite Bt, At. now rewrite app_assoc.
  - now rewrite forallb_app, Am, Bm.
  - intros pid a data Hin. apply in_app_or in Hin as [Hin|Hin].
    + now apply (Ap pid a).
    + rewrite <- A6. now apply (Bp pid a).
Qed.

Lemma menu_keeps_print (w : World) (ms : list Msg) :
  menu_keeps w (log w (map EPrint ms)).
Proof.
  repeat split. exists (map EPrint ms). split; [reflexivity|]. split.
  - induction ms; [reflexivity | assumption].
  - intros pid a data Hin. apply in_map_iff in Hin as (m & E & _).
    discriminate.
Qed.

Lemma request_break_keeps (pid : Z) (input : string) (w : World) :
  exists w', request_break pid input w = Ok true w' /\ menu_keeps w w'.
Proof.
  rewrite request_break_eq, SetBreak_eq. cbn [dbg mem trace].
  cbn [SymTable TargetFile Line InterruptCode set_Line].
  destruct (LineToPC _ _ _) as [pc|]; eexists; (split; [reflexivity|]);
    repeat split; eexists; (split; [reflexivity|]); (split; [reflexivity|]);
    intros pid' a data Hin; cbn in Hin.
  - destruct Hin as [E|[E|[]]]; [discriminate|]. now injection E as _ _ <-.
  - destruct Hin as [E|[]]. discriminate.
Qed.

Lemma InputOrContinue_loop_keeps (pid : Z) (lines : list string) :
  forall (sub : bool) (w : World),
    ends_within menu_keeps (InputOrContinue_loop pid sub lines) w.
Proof.
  induction lines as [|input rest IH]; intros sub w;
    unfold ends_within; cbn [InputOrContinue_loop].
  - destruct sub; [|apply menu_keeps_refl].
    destruct (request_break_keeps pid "" w) as (w' & E & K).
    unfold bind. rewrite E. exact K.
  - destruct (String.eqb (ToUpper input) "C"); [apply menu_keeps_refl|].
    destruct (String.eqb (ToUpper input) "S"); [apply menu_keeps_refl|].
    destruct (String.eqb (ToUpper input) "B").
    { specialize (IH true (log w [EPrint (MEnterLine (TargetFile (dbg w)))])).
      unfold ends_within in IH.
      change ((d <- get ;; print (MEnterLine (TargetFile d)) ;;;
               InputOrContinue_loop pid true rest) w)
        with (InputOrContinue_loop pid true rest
                (log w [EPrint (MEnterLine (TargetFile (dbg w)))])).
      destruct (outcome _); [|exact I].
      eapply menu_keeps_trans; [|exact IH].
      apply (menu_keeps_print w [MEnterLine (TargetFile (dbg w))]). }
    destruct (String.eqb (ToUpper input) "Q"); [apply menu_keeps_refl|].
    destruct sub.
    + destruct (request_break_keeps pid input w) as (w' & E & K).
      unfold bind. rewrite E. exact K.
    + specialize (IH false (log w [EPrint (MUnexpected input); EPrint MPrompt])).
      unfold ends_within in IH.
      change ((print (MUnexpected input) ;;; print MPrompt ;;;
               InputOrContinue_loop pid false rest) w)
        with (InputOrContinue_loop pid false rest
                (log (log w [EPrint (MUnexpected input)]) [EPrint MPrompt])).
      rewrite log_log. cbn [app].
      destruct (outcome _); [|exact I].
      eapply menu_keeps_trans; [|exact IH].
      apply (menu_keeps_print w [MUnexpected input; MPrompt]).
Qed.

(** X5.  What the menu never does.  However a call of
    [InputOrContinue] ends (a verdict, [os.Exit], or the endless prompt
    at the end of input), it has not assigned [TargetFile], [Fn],
    [SymTable], [Regs], [Ws] or [InterruptCode]; it has read no
    registers and resumed no tracee; and any write it made to the
    tracee wrote the trap instruction [InterruptCode]. *)
Theorem InputOrContinue_keeps (pid : Z) (lines : list string) (w : World) :
  ends_within menu_keeps (InputOrContinue pid lines) w.
Proof.
  pose proof (InputOrContinue_loop_keeps pid lines false
                (log w [EPrint MPrompt])) as H.
  unfold ends_within in *.
  change (InputOrContinue pid lines w)
    with (InputOrContinue_loop pid false lines (log w [EPrint MPrompt])).
  destruct (outcome _); [|exact I].
  eapply menu_keeps_trans; [|exact H].
  apply (menu_keeps_print w [MPrompt]).
Qed.

(** X6.  A request that resolves.  Once "B" has been chosen, an entry
    that is no menu letter and whose line the resolver maps to a pc at
    a readable address makes the menu return "continue" with the
    breakpoint recorded: [PC] is that pc, [OriginalCode] the byte found
    there, [BreakpointSet] is true, and the tracee's memory differs
    from before in that one byte only, which now holds the trap. *)
Theorem breakpoint_installed (pid : Z) (input : string) (rest : list string)
        (pc : Z) (b0 : byte) (w : World) :
  is_command input = false ->
  InterruptCode (dbg w) = [xcc] ->
  LineToPC (SymTable (dbg w)) (TargetFile (dbg w)) (fst (Atoi input)) = Some pc ->
  mem w (u64 pc) = Some b0 ->
  exists w',
    InputOrContinue_loop pid true (input :: rest) w = Ok (true, rest) w' /\
    Line (dbg w') = fst (Atoi input) /\
    PC (dbg w') = pc /\
    OriginalCode (dbg w') = [b0] /\
    BreakpointSet (dbg w') = true /\
    mem w' (u64 pc) = Some xcc /\
    (forall a, a <> u64 pc -> mem w' a = mem w a) /\
    trace w' = (trace w ++ [EPeek pid pc 1; EPoke pid pc [xcc]])%list.
Proof.
  intros Hcmd HI Hres Hmap.
  rewrite (default_arm pid true input rest Hcmd).
  unfold bind at 1. rewrite request_break_eq, SetBreak_eq.
  cbn [dbg mem trace SymTable TargetFile Line InterruptCode set_Line].
  rewrite Hres, HI.
  cbn [List.length repeat peek_bytes poke_bytes]. rewrite Hmap.
  cbn [fst snd]. eexists. split; [reflexivity|].
  cbn [dbg mem trace Line PC OriginalCode BreakpointSet set_OriginalCode
       set_BreakpointSet set_PC].
  repeat split.
  - unfold upd. now rewrite Z.eqb_refl.
  - intros a Ha. unfold upd. apply Z.eqb_neq in Ha. now rewrite Ha.
Qed.

Lemma breakpoint_installed_witness :
  (is_command "10" = false /\
   InterruptCode (dbg Examples.w0) = [xcc] /\
   LineToPC (SymTable (dbg Examples.w0)) (TargetFile (dbg Examples.w0))
            (fst (Atoi "10")) = Some 4100 /\
   mem Examples.w0 (u64 4100) = Some x00) /\
  exists w',
    InputOrContinue_loop 7 true ["10"; "c"] Examples.w0 = Ok (true, ["c"]) w' /\
    Line (dbg w') = fst (Atoi "10") /\
    PC (dbg w') = 4100 /\
    OriginalCode (dbg w') = [x00] /\
    BreakpointSet (dbg w') = true /\
    mem w' (u64 4100) = Some xcc /\
    (forall a, a <> u64 4100 -> mem w' a = mem Examples.w0 a) /\
    trace w' = (trace Examples.w0 ++ [EPeek 7 4100 1; EPoke 7 4100 [xcc]])%list.
Proof.
  split; [repeat split|].
  exact (breakpoint_installed 7 "10" ["c"] 4100 x00 Examples.w0
           eq_refl eq_refl eq_refl eq_refl).
Defined.

(** ** The stack walk on a conventional stack *)

Lemma printed_app (t1 t2 : list Effect) :
  printed (t1 ++ t2) = (printed t1 ++ printed t2)%list.
Proof.
  induction t1 as [|e t1 IH]; [reflexivity|].
  destruct e; cbn [app printed]; now rewrite IH.
Qed.

(** A read that succeeded holds, at every offset, the bytes a read of
    that address alone returns. *)
Lemma peek_prefix (m : Mem) (n : nat) :
  forall (out : list byte) (a : Z),
    snd (peek_bytes m a out) = None ->
    (n <= List.length out)%nat ->
    peek_bytes m a (repeat x00 n) = (firstn n (fst (peek_bytes m a out)), None).
Proof.
  induction n as [|n IH]; intros out a Hok Hn; [reflexivity|].
  destruct out as [|o out]; cbn [List.length] in Hn; [lia|].
  cbn [peek_bytes repeat] in *.
  destruct (m (u64 a)) as [b|]; [|discriminate].
  specialize (IH out (a + 1)).
  destruct (peek_bytes m (a + 1) out) as [r e]. cbn [fst snd] in *.
  rewrite IH by (assumption || lia). reflexivity.
Qed.

Lemma peek_slice (m : Mem) (k : nat) :
  forall (out : list byte) (a : Z),
    snd (peek_bytes m a out) = None ->
    (k + 8 <= List.length out)%nat ->
    load64 m (a + Z.of_nat k) =
      Some (Uint64 (firstn 8 (skipn k (fst (peek_bytes m a out))))).
Proof.
  induction k as [|k IH]; intros out a Hok Hk.
  - unfold load64. rewrite Z.add_0_r.
    now rewrite (peek_prefix m 8 out a Hok) by lia.
  - destruct out as [|o out]; cbn [List.length] in Hk; [lia|].
    cbn [peek_bytes] in *.
    destruct (m (u64 a)) as [b|]; [|discriminate].
    specialize (IH out (a + 1)).
    destruct (peek_bytes m (a + 1) out) as [r e]. cbn [fst snd skipn] in *.
    replace (a + Z.of_nat (S k)) with (a + 1 + Z.of_nat k) by lia.
    apply IH; [assumption | lia].
Qed.

(** The inner loop on a conventional frame: it stops one word above
    [bp], having taken the word at [bp] as the next frame pointer. *)
Lemma scan_frame_steps (b : list byte) (sp bp : Z) (w : World) (n : nat) :
  forall (fuel : nat) (nextbp : Z),
    0 <= sp -> bp + 8 < two64 ->
    Z.of_nat (List.length b) = bp - sp + 8 ->
    8 * Z.of_nat n <= bp - sp ->
    (n <= fuel)%nat ->
    scan_frame fuel b sp bp (bp - sp + 8 - 8 * Z.of_nat n) nextbp w =
      Ok (bp - sp + 8,
          if 0 <? Z.of_nat n
          then Uint64 (firstn 8 (skipn (Z.to_nat (bp - sp)) b))
          else nextbp) w.
Proof.
  induction n as [|n IH]; intros fuel nextbp Hsp Htop Hlen Hn Hfuel.
  - replace (bp - sp + 8 - 8 * Z.of_nat 0) with (bp - sp + 8) by lia.
    apply scan_frame_stop. rewrite u64_small; lia.
  - destruct fuel as [|fuel]; [lia|].
    set (i := bp - sp + 8 - 8 * Z.of_nat (S n)).
    assert (Hi : 8 <= i <= bp - sp) by (unfold i; lia).
    rewrite (scan_frame_go fuel b (firstn 8 (skipn (Z.to_nat i) b))).
    + replace (i + 8) with (bp - sp + 8 - 8 * Z.of_nat n) by (unfold i; lia).
      rewrite IH by lia.
      replace (0 <? Z.of_nat (S n)) with true by (symmetry; apply Z.ltb_lt; lia).
      destruct n as [|n].
      * replace i with (bp - sp) by (unfold i; lia).
        replace (sp + (bp - sp)) with bp by lia.
        rewrite u64_small by lia. now rewrite Z.eqb_refl.
      * replace (0 <? Z.of_nat (S n)) with true
          by (symmetry; apply Z.ltb_lt; lia).
        reflexivity.
    + rewrite u64_small; lia.
    + unfold slice8.
      replace ((0 <=? i) && (i + 8 <=? Z.of_nat (List.length b))) with true;
        [reflexivity|].
      symmetry. apply andb_true_intro. split; [apply Z.leb_le | apply Z.leb_le]; lia.
Qed.

Lemma frame_bounds_facts (sp bp : Z) :
  frame_bounds sp bp = true ->
  0 <= sp /\ sp + 8 <= bp /\ bp - sp <= 992 /\ (bp - sp) mod 8 = 0
  /\ bp + 8 < two64.
Proof.
  unfold frame_bounds. intros H.
  repeat (apply andb_prop in H as [H ?]).
  repeat split; first [now apply Z.leb_le | now apply Z.ltb_lt
                       | now apply Z.eqb_eq].
Qed.

(** One pass over a conventional frame whose return address resolves. *)
Lemma OutputStack_iter_conventional (pid sp bp nextbp ra nbp l : Z)
      (file : string) (f : Func) (w : World) :
  frame_bounds sp bp = true ->
  frame_words (mem w) sp bp = Some (ra, nbp) ->
  PCToLine (SymTable (dbg w)) ra = Some (file, l, f) ->
  OutputStack_iter pid sp bp nextbp w =
    Ok (if is_sentinel (Name f) then Break else Next (bp + 8) nbp)
       (mkWorld (set_Fn (dbg w) (Some f)) (mem w)
                (trace w ++ [EPeek pid sp (Z.to_nat (bp - sp + 8));
                             EPrint (MCalledBy (Name f) l)])).
Proof.
  intros Hb Hw Hres.
  apply frame_bounds_facts in Hb as (Hsp & Hlo & Hhi & Hmod & Htop).
  assert (Hfs : u64 (bp - sp + 8) = bp - sp + 8) by (apply u64_small; lia).
  destruct (OutputStack_iter_cases pid sp bp nextbp w) as [[Hc _]|[_ E]];
    [rewrite Hfs in Hc; lia|].
  rewrite E, Hfs. clear E.
  unfold frame_words in Hw.
  unfold read_frame, bind, PtracePeekData. cbn [mem dbg trace fst snd].
  set (out := repeat x00 (Z.to_nat (bp - sp + 8))) in *.
  assert (Hout : List.length out = Z.to_nat (bp - sp + 8))
    by (unfold out; apply repeat_length).
  pose proof (peek_bytes_length (mem w) out sp) as Hlen.
  pose proof (peek_slice (mem w) 0 out sp) as Hra.
  pose proof (peek_slice (mem w) (Z.to_nat (bp - sp)) out sp) as Hnbp.
  destruct (peek_bytes (mem w) sp out) as [b e]. cbn [fst snd] in *.
  destruct e; [discriminate|].
  destruct (load64 (mem w) sp) as [ra'|] eqn:Era; [|discriminate].
  destruct (load64 (mem w) bp) as [nbp'|] eqn:Enbp; [|discriminate].
  injection Hw as -> ->.
  specialize (Hra eq_refl ltac:(lia)). specialize (Hnbp eq_refl ltac:(lia)).
  rewrite Z.add_0_r, Era in Hra.
  replace (sp + Z.of_nat (Z.to_nat (bp - sp))) with bp in Hnbp by lia.
  rewrite Enbp in Hnbp.
  assert (Hra' : Uint64 (firstn 8 (skipn (Z.to_nat 0) b)) = ra)
    by (change (Z.to_nat 0) with 0%nat; congruence).
  assert (Hnbp' : Uint64 (firstn 8 (skipn (Z.to_nat (bp - sp)) b)) = nbp)
    by congruence.
  clear Hra Hnbp.
  unfold slice8 at 1.
  replace ((0 <=? 0) && (0 + 8 <=? Z.of_nat (List.length b))) with true
    by (symmetry; apply andb_true_intro; split; apply Z.leb_le; lia).
  cbv iota. rewrite Hra'.
  unfold get at 1. cbn [dbg]. rewrite Hres.
  unfold put, print, emit. cbv beta iota. cbn [dbg mem trace].
  pose proof (scan_frame_steps b sp bp
                (mkWorld (set_Fn (dbg w) (Some f)) (mem w)
                   ((trace w ++ [EPeek pid sp (List.length out)]) ++
                    [EPrint (MCalledBy (Name f) l)]))
                (Z.to_nat ((bp - sp) / 8)) (List.length b) nextbp
                Hsp Htop ltac:(lia)) as Hscan.
  assert (Hdiv : bp - sp = 8 * ((bp - sp) / 8))
    by (apply Z_div_exact_full_2; lia).
  replace (bp - sp + 8 - 8 * Z.of_nat (Z.to_nat ((bp - sp) / 8))) with 8
    in Hscan by lia.
  rewrite Hscan by lia. clear Hscan.
  replace (0 <? Z.of_nat (Z.to_nat ((bp - sp) / 8))) with true
    by (symmetry; apply Z.ltb_lt; lia).
  rewrite Hnbp'. unfold get. cbn [dbg Fn set_Fn fst snd].
  fold (is_sentinel (Name f)).
  replace (u64 (sp + (bp - sp + 8))) with (bp + 8)
    by (rewrite u64_small; lia).
  rewrite Hout, <- app_assoc.
  destruct (is_sentinel (Name f)); reflexivity.
Qed.

Lemma OutputStack_loop_chain (pid : Z) (callers : list (string * Z)) :
  forall (fuel : nat) (sp bp nextbp : Z) (w : World),
    frame_chain (SymTable (dbg w)) (mem w) sp bp callers = true ->
    (List.length callers <= fuel)%nat ->
    exists f t,
      OutputStack_loop fuel pid sp bp nextbp w =
        Ok tt (mkWorld (set_Fn (dbg w) (Some f)) (mem w) (trace w ++ t)) /\
      printed t = map (fun c => MCalledBy (fst c) (snd c)) callers /\
      Name f = last (map fst callers) "" /\
      is_sentinel (Name f) = true.
Proof.
  induction callers as [|[name line] rest IH];
    intros fuel sp bp nextbp w Hc Hfuel; [discriminate|].
  cbn [frame_chain] in Hc. apply andb_prop in Hc as [Hb Hc].
  destruct (frame_words (mem w) sp bp) as [[ra nbp]|] eqn:Ew; [|discriminate].
  destruct (PCToLine (SymTable (dbg w)) ra) as [[[file l] f]|] eqn:Er;
    [|discriminate].
  apply andb_prop in Hc as [Hc Hrest]. apply andb_prop in Hc as [Hname Hline].
  apply String.eqb_eq in Hname. apply Z.eqb_eq in Hline. subst name line.
  destruct fuel as [|fuel]; [cbn in Hfuel; lia|].
  cbn [OutputStack_loop]. unfold bind.
  rewrite (OutputStack_iter_conventional pid sp bp nextbp ra nbp l file f w
             Hb Ew Er).
  destruct rest as [|c rest].
  - rewrite Hrest. exists f. eexists. split; [reflexivity|].
    repeat split. exact Hrest.
  - apply andb_prop in Hrest as [Hns Hrest]. apply negb_true_iff in Hns.
    rewrite Hns.
    set (w1 := mkWorld (set_Fn (dbg w) (Some f)) (mem w) _).
    destruct (IH fuel (bp + 8) nbp nbp w1 Hrest ltac:(cbn in Hfuel |- *; lia))
      as (f' & t' & E & Hp & Hl & Hs).
    rewrite E. exists f'. eexists. split.
    + unfold w1. cbn [dbg mem trace set_Fn]. rewrite <- app_assoc. reflexivity.
    + split; [|split; [|exact Hs]].
      * cbn [app printed map fst snd]. now rewrite Hp.
      * rewrite Hl. reflexivity.
Qed.

(** X7.  The stack walk on a conventional stack.  When the memory holds
    a chain of conventional frames from [(sp, bp)] whose return
    addresses resolve to [callers], of which only the last is
    [main.main] or [runtime.main], [OutputStack] returns after one pass
    per caller: it prints exactly one "called by" line for each caller,
    in order, and then the empty line; it leaves [Fn] at the sentinel
    function and changes nothing else. *)
Theorem OutputStack_prints_callers (fuel : nat) (pid ip sp bp : Z)
        (callers : list (string * Z)) (w : World) :
  frame_chain (SymTable (dbg w)) (mem w) sp bp callers = true ->
  (List.length callers <= fuel)%nat ->
  exists f t,
    OutputStack fuel pid ip sp bp w =
      Ok tt (mkWorld (set_Fn (dbg w) (Some f)) (mem w) (trace w ++ t)) /\
    printed t =
      (map (fun c => MCalledBy (fst c) (snd c)) callers ++ [MNewline])%list /\
    Name f = last (map fst callers) "" /\
    is_sentinel (Name f) = true.
Proof.
  intros Hc Hfuel.
  set (w1 := mkWorld (set_Fn (dbg w)
                             (option_map snd (PCToLine (SymTable (dbg w)) ip)))
                     (mem w) (trace w)).
  destruct (OutputStack_loop_chain pid callers fuel sp bp 0 w1 Hc Hfuel)
    as (f & t & E & Hp & Hl & Hs).
  exists f, (t ++ [EPrint MNewline])%list.
  split; [|split; [|split; assumption]].
  - change (OutputStack fuel pid ip sp bp w)
      with ((OutputStack_loop fuel pid sp bp 0 ;;; print MNewline) w1).
    unfold bind. rewrite E. unfold print, emit, w1.
    cbn [dbg mem trace set_Fn]. now rewrite <- app_assoc.
  - now rewrite printed_app, Hp.
Qed.

Lemma OutputStack_prints_callers_witness :
  (frame_chain (SymTable (dbg Chain.w)) (mem Chain.w) 2000 2016 Chain.callers
     = true /\
   (List.length Chain.callers <= 2)%nat) /\
  exists f t,
    OutputStack 2 7 4100 2000 2016 Chain.w =
      Ok tt (mkWorld (set_Fn (dbg Chain.w) (Some f)) (mem Chain.w)
                     (trace Chain.w ++ t)) /\
    printed t =
      (map (fun c => MCalledBy (fst c) (snd c)) Chain.callers ++ [MNewline])%list /\
    Name f = last (map fst Chain.callers) "" /\
    is_sentinel (Name f) = true.
Proof.
  assert (H1 : frame_chain (SymTable (dbg Chain.w)) (mem Chain.w) 2000 2016
                 Chain.callers = true) by reflexivity.
  assert (H2 : (List.length Chain.callers <= 2)%nat) by (cbn; lia).
  split; [split; assumption|].
  exact (OutputStack_prints_callers 2 7 4100 2000 2016 Chain.callers Chain.w
           H1 H2).
Defined.

(** ** Frames the stack walk cannot read *)

Lemma read_frame_unmapped (pid sp frameSize bp nextbp : Z) (w : World) :
  mem w (u64 sp) = None ->
  read_frame pid sp frameSize bp nextbp w =
    Panic (log w [EPeek pid sp (Z.to_nat frameSize)]).
Proof.
  intros Hun. unfold read_frame, bind, PtracePeekData, panic, log.
  cbn [mem dbg trace]. rewrite repeat_length.
  destruct (Z.to_nat frameSize) as [|n]; cbn [repeat peek_bytes].
  - reflexivity.
  - rewrite Hun. reflexivity.
Qed.

Lemma OutputStack_iter_unmapped (pid sp bp nextbp : Z) (w : World) :
  mem w (u64 sp) = None ->
  OutputStack_iter pid sp bp nextbp w =
    Panic (log w (if (u64 (bp - sp + 8) >? 1000) || (bp =? 0)
                  then [EPrint (MStrange sp bp); EPeek pid sp 32]
                  else [EPeek pid sp (Z.to_nat (u64 (bp - sp + 8)))])).
Proof.
  intros Hun.
  destruct (OutputStack_iter_cases pid sp bp nextbp w) as [[Hc E]|[Hc E]];
    rewrite E, read_frame_unmapped by exact Hun.
  - replace ((u64 (bp - sp + 8) >? 1000) || (bp =? 0)) with true.
    + now rewrite log_log.
    + symmetry. apply orb_true_iff. destruct Hc as [Hc|Hc].
      * left. apply Z.gtb_lt. lia.
      * right. now apply Z.eqb_eq.
  - replace ((u64 (bp - sp + 8) >? 1000) || (bp =? 0)) with false;
      [reflexivity|].
    symmetry. apply orb_false_iff. split.
    + rewrite Z.gtb_ltb. apply Z.ltb_ge. lia.
    + apply Z.eqb_neq. tauto.
Qed.

(** X8.  A stack pointer that is not mapped.  When the byte at [sp]
    cannot be read, [OutputStack] panics in its first pass: after the
    assignment of [Fn] from [ip], the diagnostic if the fallback
    applies, and the one read (which fails, or is empty when the frame
    size is 0 and the panic is that of [b[0:8]]), and before any frame
    is printed. *)
Theorem OutputStack_unmapped_sp (fuel : nat) (pid ip sp bp : Z) (w : World) :
  mem w (u64 sp) = None ->
  let fallback := (u64 (bp - sp + 8) >? 1000) || (bp =? 0) in
  OutputStack (S fuel) pid ip sp bp w =
    Panic (mkWorld
             (set_Fn (dbg w) (option_map snd (PCToLine (SymTable (dbg w)) ip)))
             (mem w)
             (trace w ++
              if fallback
              then [EPrint (MStrange sp bp); EPeek pid sp 32]
              else [EPeek pid sp (Z.to_nat (u64 (bp - sp + 8)))])).
Proof.
  intros Hun fallback.
  set (w1 := mkWorld (set_Fn (dbg w)
                             (option_map snd (PCToLine (SymTable (dbg w)) ip)))
                     (mem w) (trace w)).
  change (OutputStack (S fuel) pid ip sp bp w)
    with ((OutputStack_loop (S fuel) pid sp bp 0 ;;; print MNewline) w1).
  cbn [OutputStack_loop]. unfold bind.
  rewrite (OutputStack_iter_unmapped pid sp bp 0 w1 Hun). reflexivity.
Qed.

Lemma OutputStack_unmapped_sp_witness :
  mem Examples.w0 (u64 70000) = None /\
  OutputStack 1 7 4100 70000 70016 Examples.w0 =
    Panic (mkWorld
             (set_Fn (dbg Examples.w0)
                (option_map snd (PCToLine (SymTable (dbg Examples.w0)) 4100)))
             (mem Examples.w0)
             (trace Examples.w0 ++
              if (u64 (70016 - 70000 + 8) >? 1000) || (70016 =? 0)
              then [EPrint (MStrange 70000 70016); EPeek 7 70000 32]
              else [EPeek 7 70000 (Z.to_nat (u64 (70016 - 70000 + 8)))])).
Proof.
  split; [reflexivity|].
  exact (OutputStack_unmapped_sp 0 7 4100 70000 70016 Examples.w0 eq_refl).
Defined.

(** X9.  A frame shorter than a word.  When [bp] is not 0 and lies
    between [sp - 8] and [sp - 1] (the frame size [bp - sp + 8] is below
    8), no fallback applies and the first pass panics, on the failed
    read or on the slice [b[0:8]] of the short buffer, whatever the
    memory holds. *)
Theorem OutputStack_short_frame (fuel : nat) (pid ip sp bp : Z) (w : World) :
  bp <> 0 ->
  u64 (bp - sp + 8) < 8 ->
  OutputStack (S fuel) pid ip sp bp w =
    Panic (mkWorld
             (set_Fn (dbg w) (option_map snd (PCToLine (SymTable (dbg w)) ip)))
             (mem w)
             (trace w ++ [EPeek pid sp (Z.to_nat (u64 (bp - sp + 8)))])).
Proof.
  intros Hbp Hshort.
  set (w1 := mkWorld (set_Fn (dbg w)
                             (option_map snd (PCToLine (SymTable (dbg w)) ip)))
                     (mem w) (trace w)).
  change (OutputStack (S fuel) pid ip sp bp w)
    with ((OutputStack_loop (S fuel) pid sp bp 0 ;;; print MNewline) w1).
  assert (Hiter : OutputStack_iter pid sp bp 0 w1 =
            Panic (log w1 [EPeek pid sp (Z.to_nat (u64 (bp - sp + 8)))])).
  { destruct (OutputStack_iter_cases pid sp bp 0 w1) as [[Hc _]|[_ E]]; [lia|].
    rewrite E. clear E.
    unfold read_frame, bind, PtracePeekData, panic, log.
    cbn [mem dbg trace fst snd]. rewrite repeat_length.
    pose proof (peek_bytes_length (mem w1)
                  (repeat x00 (Z.to_nat (u64 (bp - sp + 8)))) sp) as Hlen.
    rewrite repeat_length in Hlen.
    destruct (peek_bytes (mem w1) sp _) as [b e]. cbn [fst snd] in *.
    destruct e; [reflexivity|].
    unfold slice8.
    replace ((0 <=? 0) && (0 + 8 <=? Z.of_nat (List.length b))) with false;
      [reflexivity|].
    symmetry. apply andb_false_intro2. apply Z.leb_gt.
    pose proof (u64_range (bp - sp + 8)). lia. }
  cbn [OutputStack_loop]. unfold bind. rewrite Hiter. reflexivity.
Qed.

Lemma OutputStack_short_frame_witness :
  (1020 <> 0 /\ u64 (1020 - 1024 + 8) < 8) /\
  OutputStack 1 7 4100 1024 1020 Examples.w0 =
    Panic (mkWorld
             (set_Fn (dbg Examples.w0)
                (option_map snd (PCToLine (SymTable (dbg Examples.w0)) 4100)))
             (mem Examples.w0)
             (trace Examples.w0 ++ [EPeek 7 1024 (Z.to_nat (u64 (1020 - 1024 + 8)))])).
Proof.
  assert (H1 : 1020 <> 0) by discriminate.
  assert (H2 : u64 (1020 - 1024 + 8) < 8) by reflexivity.
  split; [split; assumption|].
  exact (OutputStack_short_frame 0 7 4100 1024 1020 Examples.w0 H1 H2).
Defined.

(** ** Passes of the wait loop *)

Lemma RunTarget_iter_eq (fuel : nat) (pid : Z) (ev : Event)
      (stdin : list string) (w : World) :
  RunTarget_iter fuel pid ev stdin w =
    match ev_wait ev with
    | Some _ => Panic (mkWorld (set_Ws (dbg w) 0) (mem w) (trace w))
    | None =>
        let ws := mkWorld (set_Ws (dbg w) (ev_status ev)) (mem w) (trace w) in
        if Exited (ev_status ev) then
          Ok (if ev_wpid ev =? pid then Leave else Again, stdin) ws
        else if is_trap (ev_status ev) then
          (trap_stop fuel ev ;;;
           r <- InputOrContinue (ev_wpid ev) stdin ;;
           resume (fst r) (ev_wpid ev) (ev_resume ev) ;;;
           ret (Again, snd r)) ws
        else
          (emit (ECont (ev_wpid ev)) ;;;
           must (ev_resume ev) ;;;
           ret (Again, stdin)) ws
    end.
Proof.
  unfold RunTarget_iter. unfold bind at 1 2 3, get at 1, put at 1.
  cbn [dbg mem trace].
  destruct (ev_wait ev); [reflexivity|].
  cbn [must ret]. unfold bind at 1, get at 1. cbn [dbg Ws set_Ws].
  destruct (Exited (ev_status ev)).
  - destruct (ev_wpid ev =? pid); reflexivity.
  - destruct (is_trap (ev_status ev)); reflexivity.
Qed.

(** X10.  A trap at a pc the symbol table does not know.  The pass
    reads the registers and then panics on the nil function, before the
    stack walk, before the breakpoint is restored and before any
    prompt: the tracee's memory and the breakpoint fields stay as they
    were, so a trap that was installed is left in place. *)
Theorem trap_at_unknown_pc (fuel : nat) (pid : Z) (ev : Event)
        (stdin : list string) (w : World) :
  ev_wait ev = None ->
  Exited (ev_status ev) = false ->
  is_trap (ev_status ev) = true ->
  ev_getregs ev = None ->
  PCToLine (SymTable (dbg w)) (Rip (ev_regs ev)) = None ->
  RunTarget_iter fuel pid ev stdin w =
    Panic (mkWorld (set_Regs (set_Ws (dbg w) (ev_status ev)) (ev_regs ev))
                   (mem w)
                   (trace w ++ [EGetRegs (ev_wpid ev)])).
Proof.
  intros Hwait Hex Htrap Hregs Hres.
  rewrite RunTarget_iter_eq, Hwait. cbv zeta. rewrite Hex, Htrap.
  unfold bind at 1. unfold trap_stop, bind, emit, must, get, put.
  rewrite Hregs. cbn [ret dbg mem trace Regs set_Regs SymTable set_Ws].
  rewrite Hres. reflexivity.
Qed.

Lemma trap_at_unknown_pc_witness :
  (ev_wait Stops.ev_trap_unknown = None /\
   Exited (ev_status Stops.ev_trap_unknown) = false /\
   is_trap (ev_status Stops.ev_trap_unknown) = true /\
   ev_getregs Stops.ev_trap_unknown = None /\
   PCToLine (SymTable (dbg Examples.w_armed))
            (Rip (ev_regs Stops.ev_trap_unknown)) = None) /\
  RunTarget_iter 1 1 Stops.ev_trap_unknown ["c"] Examples.w_armed =
    Panic (mkWorld (set_Regs (set_Ws (dbg Examples.w_armed)
                                     (ev_status Stops.ev_trap_unknown))
                             (ev_regs Stops.ev_trap_unknown))
                   (mem Examples.w_armed)
                   (trace Examples.w_armed ++
                    [EGetRegs (ev_wpid Stops.ev_trap_unknown)])).
Proof.
  split; [repeat split|].
  exact (trap_at_unknown_pc 1 1 Stops.ev_trap_unknown ["c"] Examples.w_armed
           eq_refl eq_refl eq_refl eq_refl eq_refl).
Defined.

(** X11.  Exit events.  A wait result that reports an exit makes no
    request, prints nothing and reads no input; it only records the
    status.  The loop is left exactly when the tracee that exited is
    the one that was spawned; the exit of any other tracee is passed
    over. *)
Theorem exit_event (fuel : nat) (pid : Z) (ev : Event) (stdin : list string)
        (w : World) :
  ev_wait ev = None ->
  Exited (ev_status ev) = true ->
  RunTarget_iter fuel pid ev stdin w =
    Ok (if ev_wpid ev =? pid then Leave else Again, stdin)
       (mkWorld (set_Ws (dbg w) (ev_status ev)) (mem w) (trace w)).
Proof.
  intros Hwait Hex. rewrite RunTarget_iter_eq, Hwait. cbv zeta.
  now rewrite Hex.
Qed.

Lemma exit_event_witness :
  (ev_wait Stops.ev_exit_thread = None /\
   Exited (ev_status Stops.ev_exit_thread) = true) /\
  RunTarget_iter 1 1 Stops.ev_exit_thread ["c"] Examples.w_armed =
    Ok (if ev_wpid Stops.ev_exit_thread =? 1 then Leave else Again, ["c"])
       (mkWorld (set_Ws (dbg Examples.w_armed) (ev_status Stops.ev_exit_thread))
                (mem Examples.w_armed) (trace Examples.w_armed)).
Proof.
  split; [split; reflexivity|].
  exact (exit_event 1 1 Stops.ev_exit_thread ["c"] Examples.w_armed
           eq_refl eq_refl).
Defined.

(** X12.  No stopped tracee is left behind.  Whenever the pass for an
    event that is not an exit returns, its last request resumed the
    tracee that had stopped, with [PtraceCont] or [PtraceSingleStep];
    and [PtraceSingleStep] is only ever used at a trap. *)
Theorem stop_pass_ends_with_resume (fuel : nat) (pid : Z) (ev : Event)
        (stdin rest : list string) (l : Loop) (w w' : World) :
  Exited (ev_status ev) = false ->
  RunTarget_iter fuel pid ev stdin w = Ok (l, rest) w' ->
  l = Again /\
  exists t,
    trace w' = (t ++ [ECont (ev_wpid ev)])%list
    \/ (is_trap (ev_status ev) = true /\
        trace w' = (t ++ [ESingleStep (ev_wpid ev)])%list).
Proof.
  intros Hex H. rewrite RunTarget_iter_eq in H.
  destruct (ev_wait ev); [discriminate|]. cbv zeta in H. rewrite Hex in H.
  destruct (is_trap (ev_status ev)).
  - unfold bind at 1 in H.
    destruct (trap_stop fuel ev _) as [[] w1|w1|w1|w1|]; try discriminate.
    unfold bind at 1 in H.
    destruct (InputOrContinue (ev_wpid ev) stdin w1) as [[v r] w2|w2|w2|w2|];
      try discriminate.
    unfold bind, resume, emit, must in H. cbn [fst snd] in H.
    destruct v, (ev_resume ev); try discriminate;
      injection H as <- <- <-; (split; [reflexivity|]);
      exists (trace w2); [left | right; split]; reflexivity.
  - unfold bind, emit, must in H.
    destruct (ev_resume ev); try discriminate.
    injection H as <- <- <-. split; [reflexivity|].
    eexists. left. reflexivity.
Qed.

Lemma stop_pass_ends_with_resume_witness :
  (Exited (ev_status Examples.ev_clone) = false /\
   RunTarget_iter 0 1 Examples.ev_clone ["c"] Examples.w0 =
     Ok (Again, ["c"])
        (mkWorld (set_Ws Examples.d0 198015) Examples.m0 [ECont 7])) /\
  Again = Again /\
  exists t,
    [ECont 7] = (t ++ [ECont (ev_wpid Examples.ev_clone)])%list
    \/ (is_trap (ev_status Examples.ev_clone) = true /\
        [ECont 7] = (t ++ [ESingleStep (ev_wpid Examples.ev_clone)])%list).
Proof.
  assert (H : RunTarget_iter 0 1 Examples.ev_clone ["c"] Examples.w0 =
              Ok (Again, ["c"])
                 (mkWorld (set_Ws Examples.d0 198015) Examples.m0 [ECont 7]))
    by reflexivity.
  split; [split; [reflexivity | exact H]|].
  exact (stop_pass_ends_with_resume 0 1 Examples.ev_clone ["c"] ["c"] Again
           Examples.w0 _ eq_refl H).
Defined.

(** X13.  The loop ends at the exit of the spawned process.  Once the
    events handled so far have made the loop leave, whatever events the
    kernel would deliver afterwards change nothing: none of them is
    waited for. *)
Theorem events_after_exit_ignored (fuel : nat) (pid : Z)
        (evs more : list Event) :
  forall (stdin rest : list string) (w w' : World),
    RunTarget_loop fuel pid evs stdin w = Ok (Leave, rest) w' ->
    RunTarget_loop fuel pid (evs ++ more) stdin w = Ok (Leave, rest) w'.
Proof.
  induction evs as [|ev evs IH]; intros stdin rest w w' H;
    cbn [RunTarget_loop app] in *; [discriminate|].
  unfold bind in *.
  destruct (RunTarget_iter fuel pid ev stdin w) as [[[|] r] w1|w1|w1|w1|];
    cbn [fst snd] in *; try discriminate; [exact H | now apply IH].
Qed.

Lemma events_after_exit_ignored_witness :
  RunTarget_loop 1 1 [Stops.ev_exit_thread; Stops.ev_exit_main] ["c"]
                 Examples.w0 =
    Ok (Leave, ["c"]) (mkWorld (set_Ws Examples.d0 0) Examples.m0 []) /\
  RunTarget_loop 1 1 ([Stops.ev_exit_thread; Stops.ev_exit_main]
                      ++ [Examples.ev_trap]) ["c"] Examples.w0 =
    Ok (Leave, ["c"]) (mkWorld (set_Ws Examples.d0 0) Examples.m0 []).
Proof.
  assert (H : RunTarget_loop 1 1 [Stops.ev_exit_thread; Stops.ev_exit_main]
                ["c"] Examples.w0 =
              Ok (Leave, ["c"]) (mkWorld (set_Ws Examples.d0 0) Examples.m0 []))
    by reflexivity.
  split; [exact H|].
  exact (events_after_exit_ignored 1 1 _ [Examples.ev_trap] _ _ _ _ H).
Defined.

(** ** The request behind a breakpoint *)

Lemma same_request_refl (w : World) : same_request w w.
Proof. unfold same_request. tauto. Qed.

Lemma same_request_trans (x y z : World) :
  same_request x y -> same_request y z -> same_request x z.
Proof.
  intros (A1 & A2 & A3 & A4 & A5 & A6) (B1 & B2 & B3 & B4 & B5 & B6).
  unfold same_request.
  rewrite B1, B2, B3, B4, B5, A1, A2, A3, A4, A5.
  repeat split. destruct B6 as [B6|B6]; [rewrite B6; exact A6 | now right].
Qed.

Lemma changes_only_Fn_same_request (w w' : World) :
  changes_only_Fn w w' -> same_request w w'.
Proof.
  intros (fn & t & -> & _). unfold same_request. cbn. tauto.
Qed.

Lemma session_ok_same_request (tbl : Table) (w w' : World) :
  session_ok tbl w -> same_request w w' -> session_ok tbl w'.
Proof.
  intros [(HT & HI & HB) HF] (E1 & E2 & E3 & E4 & E5 & E6).
  unfold session_ok, request_ok. cbv zeta.
  rewrite E1, E2, E3, E4, E5. repeat split; try assumption.
  intros Hset. apply HB. destruct E6 as [E6|E6]; congruence.
Qed.

(** At a trap, up to the prompt, the request is only read; the one
    field of it that is written is [BreakpointSet], which is cleared. *)
Lemma trap_stop_same_request (fuel : nat) (ev : Event) (w : World) :
  ends_within same_request (trap_stop fuel ev) w.
Proof.
  unfold ends_within, trap_stop, bind, emit, must, get, put.
  cbn [dbg mem trace].
  destruct (ev_getregs ev); [unfold same_request; cbn; tauto|].
  cbn [ret dbg mem trace Regs set_Regs SymTable].
  destruct (PCToLine (SymTable (dbg w)) (Rip (ev_regs ev)))
    as [[[file line] fn]|]; [|unfold same_request; cbn; tauto].
  unfold print, emit. cbn [dbg mem trace].
  set (w1 := mkWorld _ _ _).
  assert (H1 : same_request w w1) by (unfold same_request; cbn; tauto).
  pose proof (OutputStack_frame fuel (ev_wpid ev) (Rip (ev_regs ev))
                (Rsp (ev_regs ev)) (Rbp (ev_regs ev)) w1) as HO.
  unfold halts_within in HO.
  destruct (OutputStack _ _ _ _ _ w1) as [[] w2|w2|w2|w2|]; try contradiction;
    [| |exact I]; apply changes_only_Fn_same_request in HO;
    pose proof (same_request_trans _ _ _ H1 HO) as H2; [|exact H2].
  rewrite restore_breakpoint_eq. cbv zeta.
  destruct (BreakpointSet (dbg w2)); cbn [outcome]; [|exact H2].
  apply (same_request_trans _ _ _ H2). unfold same_request. cbn. tauto.
Qed.

(** Every request, whether it resolves or not, leaves a sound state. *)
Lemma request_break_session (tbl : Table) (pid : Z) (input : string)
      (w : World) :
  session_ok tbl w ->
  exists w', request_break pid input w = Ok true w' /\ session_ok tbl w'.
Proof.
  intros [(HT & HI & _) HF].
  rewrite request_break_eq, SetBreak_eq. cbn [dbg mem trace].
  cbn [SymTable TargetFile Line InterruptCode set_Line].
  destruct (LineToPC _ _ _) as [pc|] eqn:E; eexists; (split; [reflexivity|]);
    unfold session_ok, request_ok;
    cbn [dbg mem fst snd BreakpointSet InterruptCode PC SymTable TargetFile
         Line OriginalCode set_OriginalCode set_BreakpointSet set_PC set_Line];
    repeat split; try assumption; try discriminate.
  intros _. now rewrite <- HT.
Qed.

Lemma InputOrContinue_loop_session (tbl : Table) (pid : Z)
      (lines : list string) :
  forall (sub : bool) (w : World),
    session_ok tbl w ->
    ends_within (reaches (session_ok tbl)) (InputOrContinue_loop pid sub lines) w.
Proof.
  induction lines as [|input rest IH]; intros sub w Ha;
    unfold ends_within, reaches; cbn [InputOrContinue_loop].
  - destruct sub; [|exact Ha].
    destruct (request_break_session tbl pid "" w Ha) as (w' & E & Ha').
    unfold bind. rewrite E. exact Ha'.
  - destruct (String.eqb (ToUpper input) "C"); [exact Ha|].
    destruct (String.eqb (ToUpper input) "S"); [exact Ha|].
    destruct (String.eqb (ToUpper input) "B").
    { apply (IH true (log w [EPrint (MEnterLine (TargetFile (dbg w)))])).
      exact Ha. }
    destruct (String.eqb (ToUpper input) "Q"); [exact Ha|].
    destruct sub.
    + destruct (request_break_session tbl pid input w Ha) as (w' & E & Ha').
      unfold bind. rewrite E. exact Ha'.
    + apply (IH false (log (log w [EPrint (MUnexpected input)]) [EPrint MPrompt])).
      exact Ha.
Qed.

Lemma ask_and_resume_session {A} (tbl : Table) (wpid : Z)
      (stdin : list string) (err : option Errno) (k : list string -> A)
      (w : World) :
  session_ok tbl w ->
  ends_within (reaches (session_ok tbl))
    (r <- InputOrContinue wpid stdin ;;
     resume (fst r) wpid err ;;; ret (k (snd r))) w.
Proof.
  intros Ha.
  apply ends_within_bind; [apply reaches_trans | |].
  - apply (InputOrContinue_loop_session tbl wpid stdin false
             (log w [EPrint MPrompt])). exact Ha.
  - intros r w1 _ Ha1. unfold ends_within, reaches, bind, resume, emit, must.
    destruct (fst r), err; exact Ha1.
Qed.

Lemma RunTarget_iter_session (tbl : Table) (fuel : nat) (pid : Z) (ev : Event)
      (stdin : list string) (w : World) :
  session_ok tbl w ->
  ends_within (reaches (session_ok tbl)) (RunTarget_iter fuel pid ev stdin) w.
Proof.
  intros Ha. unfold ends_within. rewrite RunTarget_iter_eq.
  destruct (ev_wait ev); [exact Ha|]. cbv zeta.
  set (ws := mkWorld (set_Ws (dbg w) (ev_status ev)) (mem w) (trace w)).
  assert (Hs : session_ok tbl ws) by exact Ha.
  destruct (Exited (ev_status ev)).
  { destruct (ev_wpid ev =? pid); exact Hs. }
  destruct (is_trap (ev_status ev)).
  - apply (ends_within_bind (reaches (session_ok tbl)) (trap_stop fuel ev)
             (fun _ => r <- InputOrContinue (ev_wpid ev) stdin ;;
                       resume (fst r) (ev_wpid ev) (ev_resume ev) ;;;
                       ret (Again, snd r)) ws);
      [apply reaches_trans | |].
    + pose proof (trap_stop_same_request fuel ev ws) as HT.
      unfold ends_within, reaches in *.
      destruct (outcome (trap_stop fuel ev ws)) as [w1|]; [|exact I].
      exact (session_ok_same_request tbl ws w1 Hs HT).
    + intros [] w1 _ Ha1. now apply ask_and_resume_session.
  - unfold bind, emit, must. destruct (ev_resume ev); exact Hs.
Qed.

Lemma RunTarget_loop_session (tbl : Table) (fuel : nat) (pid : Z)
      (evs : list Event) :
  forall (stdin : list string) (w : World),
    session_ok tbl w ->
    ends_within (reaches (session_ok tbl)) (RunTarget_loop fuel pid evs stdin) w.
Proof.
  induction evs as [|ev evs IH]; intros stdin w Ha; cbn [RunTarget_loop].
  - exact Ha.
  - apply ends_within_bind; [apply reaches_trans | |].
    + now apply RunTarget_iter_session.
    + intros [[|] rest] w1 _ Ha1; cbn [fst snd]; [exact Ha1 | now apply IH].
Qed.

Lemma RunTarget_session (tbl : Table) (fuel : nat) (s : Spawn)
      (evs : list Event) (stdin : list string) (w : World) :
  session_ok tbl w ->
  ends_within (reaches (session_ok tbl)) (RunTarget fuel s evs stdin) w.
Proof.
  intros Ha. unfold RunTarget.
  apply ends_within_bind; [apply reaches_trans | |].
  - unfold ends_within. rewrite RunTarget_start_eq. cbv zeta.
    set (w1 := log _ _).
    assert (Ha1 : session_ok tbl w1).
    { unfold w1. destruct (sp_wait_err s); exact Ha. }
    destruct (sp_setoptions s); [exact Ha1|].
    now apply (ask_and_resume_session tbl (sp_pid s) stdin (sp_resume s)
                 (fun l => l) w1).
  - intros stdin' w1 _ Ha1. now apply RunTarget_loop_session.
Qed.

(** X14.  The request behind a breakpoint.  In every state a session
    reaches, whatever the events and the operator's input, the symbol
    table and the trap instruction are those the session started with,
    the file of every request is the file of [main.main], and while a
    breakpoint is recorded as set, [PC] is the address the symbol table
    gives for the requested line in that file. *)
Theorem session_keeps_request (fuel : nat) (tbl : Table) (base : Mem)
        (s : Spawn) (evs : list Event) (stdin : list string) :
  ends_within (reaches (session_ok tbl)) (Run fuel s evs stdin)
              (initial tbl base).
Proof.
  unfold ends_within.
  unfold Run, bind at 1, get at 1. cbn [dbg initial NewDebugger SymTable].
  destruct (LookupFunc tbl "main.main") as [f|] eqn:EL.
  2:{ unfold reaches, session_ok, request_ok, main_file. cbn. rewrite EL.
      repeat split. discriminate. }
  destruct (PCToLine tbl (Entry f)) as [[[file line] fn]|] eqn:EP;
    unfold bind at 1, put at 1;
    match goal with |- context [RunTarget fuel s evs stdin ?w1] =>
      assert (Ha : session_ok tbl w1)
        by (unfold session_ok, request_ok, main_file; cbn;
            rewrite EL, EP; repeat split; discriminate);
      exact (RunTarget_session tbl fuel s evs stdin w1 Ha)
    end.
Qed.

(** ** How much the stack walk reads at once *)

Lemma reads_of_refl (pid : Z) (w : World) : reads_of pid w w.
Proof. exists []. split; [now rewrite app_nil_r | reflexivity]. Qed.

Lemma reads_of_trans (pid : Z) (x y z : World) :
  reads_of pid x y -> reads_of pid y z -> reads_of pid x z.
Proof.
  intros (t1 & E1 & H1) (t2 & E2 & H2). exists (t1 ++ t2)%list. split.
  - now rewrite E2, E1, app_assoc.
  - now rewrite forallb_app, H1, H2.
Qed.

Lemma read_frame_reads (pid sp frameSize bp nextbp : Z) (w : World) :
  frameSize <= 1000 ->
  halts_within (reads_of pid) (read_frame pid sp frameSize bp nextbp) w.
Proof.
  intros Hsz.
  unfold halts_within, read_frame, bind, PtracePeekData, panic, get.
  cbn [mem dbg trace snd fst].
  set (pk := peek_bytes (mem w) sp (repeat x00 (Z.to_nat frameSize))).
  set (e := EPeek pid sp (List.length (repeat x00 (Z.to_nat frameSize)))).
  assert (He : small_read pid e = true).
  { unfold e, small_read. rewrite repeat_length, Z.eqb_refl. cbn [andb].
    apply Nat.leb_le. lia. }
  assert (H1 : forall d m, reads_of pid w (mkWorld d m (trace w ++ [e])%list)).
  { intros d m. exists [e]. split; [reflexivity|]. cbn [forallb]. rewrite He. reflexivity. }
  assert (H2 : forall d m x,
            reads_of pid w (mkWorld d m ((trace w ++ [e]) ++ [EPrint x])%list)).
  { intros d m x. exists [e; EPrint x]. split.
    - cbn [trace]. now rewrite <- app_assoc.
    - cbn [forallb]. rewrite He. reflexivity. }
  destruct (snd pk); [apply H1|].
  destruct (slice8 (fst pk) 0) as [s|]; [|apply H1].
  unfold put, print, emit. cbv beta. cbn [mem dbg trace].
  destruct (PCToLine (SymTable (dbg w)) (Uint64 s)) as [[[file lineno] nextfn]|].
  - cbv beta. cbn [mem dbg trace].
    match goal with |- context [scan_frame ?f ?b ?s ?p ?i ?n ?w0] =>
      pose proof (scan_frame_pure f b s p i n w0) as Hp;
      unfold halts_within in Hp;
      destruct (scan_frame f b s p i n w0) as [ib w'|w'|w'|w'|] end;
      try contradiction; try exact I; subst w'; cbn [dbg Fn set_Fn].
    + destruct (String.eqb (Name nextfn) "main.main"
                || String.eqb (Name nextfn) "runtime.main");
        cbn [ret]; apply H2.
    + apply H2.
  - unfold ret at 1.
    match goal with |- context [scan_frame ?f ?b ?s ?p ?i ?n ?w0] =>
      pose proof (scan_frame_pure f b s p i n w0) as Hp;
      unfold halts_within in Hp;
      destruct (scan_frame f b s p i n w0) as [ib w'|w'|w'|w'|] end;
      try contradiction; try exact I; subst w'; cbn [dbg].
    + destruct (Fn (dbg w)) as [f|].
      * destruct (String.eqb (Name f) "main.main"
                  || String.eqb (Name f) "runtime.main");
          cbn [ret]; apply H1.
      * apply H1.
    + apply H1.
Qed.

Lemma OutputStack_iter_reads (pid sp bp nextbp : Z) (w : World) :
  halts_within (reads_of pid) (OutputStack_iter pid sp bp nextbp) w.
Proof.
  destruct (OutputStack_iter_cases pid sp bp nextbp w) as [[_ E]|[Hn E]];
    unfold halts_within; rewrite E.
  - pose proof (read_frame_reads pid sp 32 (u64 (sp + 32 - 8)) nextbp
                  (log w [EPrint (MStrange sp bp)]) ltac:(lia)) as H.
    unfold halts_within in H.
    destruct (read_frame _ _ _ _ _ _) as [a w'|w'|w'|w'|]; try exact H;
      (apply (reads_of_trans pid w (log w [EPrint (MStrange sp bp)]) w');
       [|exact H]); exists [EPrint (MStrange sp bp)]; now split.
  - apply (read_frame_reads pid sp (u64 (bp - sp + 8)) bp nextbp w). lia.
Qed.

Lemma OutputStack_loop_reads (fuel : nat) (pid sp bp nextbp : Z) (w : World) :
  halts_within (reads_of pid) (OutputStack_loop fuel pid sp bp nextbp) w.
Proof.
  revert sp bp nextbp w. induction fuel as [|fuel IH]; intros sp bp nextbp w.
  - exact I.
  - cbn [OutputStack_loop]. apply halts_within_bind.
    + apply reads_of_trans.
    + apply OutputStack_iter_reads.
    + intros [|sp' nb'] w1 _ _; [apply reads_of_refl | apply IH].
Qed.

(** X15.  How much the stack walk reads at once.  Whatever stack
    pointer and frame pointer the tracee stopped with, every request a
    call of [OutputStack] makes is a print or a read of at most 1000
    bytes from the tracee that stopped; a call that ends does so by
    returning or by a panic, never by leaving the engine or by waiting
    for input. *)
Theorem OutputStack_reads_bounded (fuel : nat) (pid ip sp bp : Z) (w : World) :
  halts_within (reads_of pid) (OutputStack fuel pid ip sp bp) w.
Proof.
  unfold OutputStack.
  apply halts_within_bind; [apply reads_of_trans | apply reads_of_refl |].
  intros d w0 _ _.
  apply halts_within_bind; [apply reads_of_trans | |].
  - unfold halts_within, put. exists []. cbn [trace].
    split; [now rewrite app_nil_r | reflexivity].
  - intros _ w1 _ _.
    apply halts_within_bind;
      [apply reads_of_trans | apply OutputStack_loop_reads |].
    intros _ w2 _ _. unfold halts_within, print, emit.
    exists [EPrint MNewline]. now split.
Qed.
